(** * Interview-preparation research assistant: the decision logic of main.py

    A shallow embedding of the pure parts of [src/main.py]:
    the uncertainty check of [generate_company_overview], the query builder,
    relevance filter, deduplication and role-priority sort of
    [get_github_resources], and the curated table of
    [get_improved_fallback_resources].

    Conventions of the embedding.
    - Python [str] is [string]; a character is a code point below 256, and
      [lower], [isspace], [strip] and [split] are Python's on that range.
    - A JSON object returned by the search API is a finite map from keys to
      [value]s ([gmap string value]); a key that is not there is a lookup
      giving [None].
    - [seen_urls] is a finite set of strings ([gset string]).
    - A Python exception that leaves the function is a [Raise] result.
    - [max_results], a count, is a natural number.
    - The network and the language model are oracles passed as arguments. *)

From stdpp Require Import base decidable option list strings gmap pretty.
From Stdlib Require Import Ascii Bool Arith Lia.
From Stdlib Require String.

#[local] Set Warnings "-clear-no-such-hyp".

(** ** Text primitives *)

Module Text.

(** The code point of a character. *)
Definition ord (c : ascii) : nat := nat_of_ascii c.

(** [str.lower] on one character: A-Z and the upper-case letters of the
    Latin-1 block (U+00C0 to U+00DE without the multiplication sign U+00D7)
    move up by 32, every other character is unchanged. *)
Definition lower_char (c : ascii) : ascii :=
  let n := ord c in
  if ((65 <=? n) && (n <=? 90))
     || ((192 <=? n) && (n <=? 222) && negb (n =? 215))
  then ascii_of_nat (n + 32) else c.

(** [s.lower()] *)
Fixpoint lower (s : string) : string :=
  match s with
  | EmptyString => EmptyString
  | String c s' => String (lower_char c) (lower s')
  end.

(** [c.isspace()]: tab, line feed, vertical tab, form feed, carriage return,
    the four separators U+001C to U+001F, space, next line U+0085 and the
    no-break space U+00A0. *)
Definition isspace (c : ascii) : bool :=
  let n := ord c in
  ((9 <=? n) && (n <=? 13)) || ((28 <=? n) && (n <=? 32))
  || (n =? 133) || (n =? 160).

Definition is_empty (s : string) : bool :=
  match s with EmptyString => true | String _ _ => false end.

(** [s.lstrip()] *)
Fixpoint lstrip (s : string) : string :=
  match s with
  | EmptyString => EmptyString
  | String c s' => if isspace c then lstrip s' else s
  end.

(** [s.rstrip()] *)
Fixpoint rstrip (s : string) : string :=
  match s with
  | EmptyString => EmptyString
  | String c s' =>
      let t := rstrip s' in
      if isspace c && is_empty t then EmptyString else String c t
  end.

(** [s.strip()] *)
Definition strip (s : string) : string := rstrip (lstrip s).

(** [s.split()] with no separator: the maximal runs of characters that are
    not whitespace, in order; [cur] is the run being read. *)
Fixpoint split_from (cur : string) (s : string) : list string :=
  match s with
  | EmptyString => if is_empty cur then [] else [cur]
  | String c s' =>
      if isspace c
      then (if is_empty cur then split_from EmptyString s'
            else cur :: split_from EmptyString s')
      else split_from (cur +:+ String c EmptyString) s'
  end.

Definition split (s : string) : list string := split_from EmptyString s.

(** [s.replace(' ', '')]: every space character U+0020 removed. *)
Fixpoint remove_spaces (s : string) : string :=
  match s with
  | EmptyString => EmptyString
  | String c s' =>
      if Ascii.eqb c " "%char then remove_spaces s'
      else String c (remove_spaces s')
  end.

(** [needle in hay] on strings: [needle] is a prefix of some suffix of
    [hay]. *)
Fixpoint contains (hay needle : string) : bool :=
  if String.prefix needle hay then true
  else match hay with
       | EmptyString => false
       | String _ hay' => contains hay' needle
       end.

(** Truth value of a string: the empty string is false. *)
Definition truthy (s : string) : bool := negb (is_empty s).

(** The double quote and the line feed, which the query and prompt templates
    contain. *)
Definition dquote : string := String (ascii_of_nat 34) EmptyString.
Definition newline : string := String (ascii_of_nat 10) EmptyString.

End Text.

Import Text.

Notation "needle 'isin' hay" := (contains hay needle) (at level 70, no associativity).

(** [any(p(x) for x in xs)] *)
Definition any {A : Type} (p : A -> bool) (xs : list A) : bool := existsb p xs.

(** ** Values, exceptions *)

(** What a key of a JSON object holds, as far as the code tells values
    apart: JSON null (Python [None]) or a string. *)
Inductive value : Type :=
  | PyNone
  | Str (s : string).

(** A repository record of the search API. *)
Abbreviation repo := (gmap string value).

Inductive exn : Type :=
  | AttributeError   (* [None.lower()] *)
  | KeyError.        (* [repo["full_name"]] on a record without that key *)

Inductive result (A : Type) : Type :=
  | Ok (a : A)
  | Raise (e : exn).
Arguments Ok {A} a.
Arguments Raise {A} e.

(** Sequencing of computations that may raise: the first exception leaves
    the function. *)
#[global] Instance result_ret : MRet result := fun A a => Ok a.
#[global] Instance result_bind : MBind result := fun A B k m =>
  match m with
  | Ok a => k a
  | Raise e => Raise e
  end.

(** ** Section 3 of main.py: GitHub resources *)

(** An entry of [company_resources] while it still carries the transient
    [role_specific] key, and an entry as it is returned. The name is whatever
    the record holds under [full_name]. *)
Record candidate : Type := Candidate {
  cand_name : value;
  cand_url : string;
  role_specific : bool
}.

Record resource : Type := Resource {
  name : value;
  url : string
}.

(** [if job_role and job_role.strip(): yes else: no], where [yes] reads the
    string bound to [job_role]. *)
Definition if_role {A : Type} (job_role : option string)
    (yes : string -> A) (no : A) : A :=
  match job_role with
  | Some s => if truthy s && truthy (strip s) then yes s else no
  | None => no
  end.

(** Lines 205-211: the five base queries. *)
Definition base_queries (company : string) : list string :=
  [ dquote +:+ company +:+ dquote +:+ " interview questions";
    company +:+ " " +:+ dquote +:+ "technical interview" +:+ dquote;
    company +:+ " " +:+ dquote +:+ "coding interview" +:+ dquote;
    company +:+ " " +:+ dquote +:+ "interview preparation" +:+ dquote;
    company +:+ " " +:+ dquote +:+ "interview experience" +:+ dquote ].

(** Lines 216-221: the four role queries. *)
Definition role_queries (company job_role : string) : list string :=
  [ dquote +:+ company +:+ dquote +:+ " " +:+ job_role +:+ " interview";
    company +:+ " " +:+ job_role +:+ " " +:+ dquote +:+ "interview questions" +:+ dquote;
    company +:+ " " +:+ job_role +:+ " " +:+ dquote +:+ "technical interview" +:+ dquote;
    job_role +:+ " " +:+ dquote +:+ "interview preparation" +:+ dquote +:+ " " +:+ company ].

(** Lines 204-223: the queries, and [job_role] as the block leaves it. *)
Definition build_queries (company : string) (job_role : option string)
    : list string * option string :=
  let queries := base_queries company in
  if_role job_role
    (fun s =>
       let job_role := lower (strip s) in
       ((role_queries company job_role ++ queries)%list, Some job_role))
    (queries, job_role).

(** Lines 225-245: one request per query. [search query] is [Some items]
    when the request answers with status 200 and a body whose [items] are
    [items], and [None] when the request fails in any way; results are
    appended in query order. *)
Fixpoint fetch (search : string -> option (list repo)) (queries : list string)
    : list repo :=
  match queries with
  | [] => []
  | query :: rest =>
      match search query with
      | Some items => (items ++ fetch search rest)%list
      | None => fetch search rest
      end
  end.

(** Lines 252-257. *)
Definition base_keywords : list string :=
  [ "interview question"; "hiring process"; "coding challenge";
    "assessment"; "interview experience"; "interview prep";
    "technical interview"; "onsite interview"; "online assessment";
    "leetcode"; "interview problem" ].

(** Lines 251-263: the keyword list, and [job_role] as the block leaves
    it. *)
Definition interview_keywords (job_role : option string)
    : list string * option string :=
  if_role job_role
    (fun s =>
       let job_role := lower (strip s) in
       let role_keywords := [job_role; remove_spaces job_role] in
       ((base_keywords ++ role_keywords)%list, Some job_role))
    (base_keywords, job_role).

(** Lines 275-277: the haystack [content]. [repo.get("name", "")] is the
    empty string only when the key is not there; a null name reaches
    [.lower()] and raises. A description that is not there, null or empty
    is replaced by the empty string. *)
Definition content (r : repo) : result string :=
  name ← match r !! "name" with
         | None => Ok (lower "")
         | Some (Str s) => Ok (lower s)
         | Some PyNone => Raise AttributeError
         end;
  let description :=
    lower match r !! "description" with
          | Some (Str s) => if truthy s then s else ""
          | Some PyNone | None => ""
          end in
  Ok (name +:+ " " +:+ description).

(** Lines 284-286. *)
Definition is_role_specific (job_role : option string) (content : string) : bool :=
  if_role job_role
    (fun s => any (fun role_term => role_term isin content) (split (lower s)))
    false.

(** The state of the loop of lines 266-300. *)
Record scan_state : Type := ScanState {
  seen_urls : gset string;
  company_resources : list candidate
}.

(** How an iteration ends: the loop goes on ([continue], or the end of the
    body) or is left ([break]). *)
Inductive flow : Type := Next | Break.

(** Lines 270-300: one iteration on the record [r]. *)
Definition loop_body (company_lower : string) (job_role : option string)
    (interview_keywords : list string) (max_results : nat)
    (r : repo) (st : scan_state) : result (flow * scan_state) :=
  match r !! "html_url" with
  | Some (Str repo_url) =>
      if negb (truthy repo_url) || bool_decide (repo_url ∈ seen_urls st)
      then Ok (Next, st)
      else
        content ← content r;
        if negb (company_lower isin content) then Ok (Next, st)
        else
          let is_role_specific := is_role_specific job_role content in
          st' ← (if any (fun keyword => keyword isin content) interview_keywords
                 then
                   full_name ← match r !! "full_name" with
                               | Some v => Ok v
                               | None => Raise KeyError
                               end;
                   Ok {| seen_urls := {[ repo_url ]} ∪ seen_urls st;
                         company_resources :=
                           (company_resources st
                              ++ [Candidate full_name repo_url is_role_specific])%list |}
                 else Ok st);
          if max_results * 2 <=? length (company_resources st')
          then Ok (Break, st')
          else Ok (Next, st')
  | Some PyNone | None => Ok (Next, st)
  end.

(** Lines 269-300: the loop over [all_results]. *)
Fixpoint scan (company_lower : string) (job_role : option string)
    (interview_keywords : list string) (max_results : nat)
    (all_results : list repo) (st : scan_state) : result scan_state :=
  match all_results with
  | [] => Ok st
  | r :: rest =>
      out ← loop_body company_lower job_role interview_keywords max_results r st;
      match out with
      | (Next, st') =>
          scan company_lower job_role interview_keywords max_results rest st'
      | (Break, st') => Ok st'
      end
  end.

(** [l.sort(key=key)] for a key that is a truth value: a stable sort,
    ascending in the key ([False] before [True]). [insert_by] puts an entry
    behind the entries of a smaller key and in front of the others, so an
    entry stays in front of the later entries of its own key. *)
Fixpoint insert_by {A : Type} (key : A -> bool) (x : A) (l : list A) : list A :=
  match l with
  | [] => [x]
  | y :: l' =>
      if negb (key y) && key x then y :: insert_by key x l'
      else x :: y :: l'
  end.

Fixpoint sort_by {A : Type} (key : A -> bool) (l : list A) : list A :=
  match l with
  | [] => []
  | x :: l' => insert_by key x (sort_by key l')
  end.

(** Lines 302-305. *)
Definition prioritize (job_role : option string) (company_resources : list candidate)
    : list candidate :=
  if_role job_role
    (fun _ => sort_by (fun x => negb (role_specific x)) company_resources)
    company_resources.

(** Lines 307-310: the [role_specific] key is deleted from every entry. *)
Definition drop_role_specific (c : candidate) : resource :=
  Resource (cand_name c) (cand_url c).

(** Lines 312-317. *)
Definition first_results (max_results : nat) (company_resources : list resource)
    : list resource :=
  match company_resources with
  | [] => []
  | _ :: _ => take max_results company_resources
  end.

(** The accepted list of lines 251-300, for the value [job_role] has after
    the query block, together with [job_role] as the loop leaves it. *)
Definition accepted (company : string) (job_role : option string)
    (max_results : nat) (all_results : list repo)
    : result (list candidate) * option string :=
  let company_lower := lower company in
  let '(interview_keywords, job_role) := interview_keywords job_role in
  (st ← scan company_lower job_role interview_keywords max_results all_results
         {| seen_urls := ∅; company_resources := [] |};
   Ok (company_resources st),
   job_role).

(** Lines 247-317: from the collected [all_results] to the returned list,
    for the value [job_role] has after the query block. *)
Definition relevance_filter (company : string) (job_role : option string)
    (max_results : nat) (all_results : list repo) : result (list resource) :=
  match all_results with
  | [] => Ok []
  | _ :: _ =>
      let '(company_resources, job_role) :=
        accepted company job_role max_results all_results in
      company_resources ← company_resources;
      let company_resources := prioritize job_role company_resources in
      let company_resources := map drop_role_specific company_resources in
      Ok (first_results max_results company_resources)
  end.

(** [get_github_resources(company, job_role, max_results)], with the search
    service as the oracle [search]. *)
Definition get_github_resources (search : string -> option (list repo))
    (company : string) (job_role : option string) (max_results : nat)
    : result (list resource) :=
  let '(queries, job_role) := build_queries company job_role in
  let all_results := fetch search queries in
  relevance_filter company job_role max_results all_results.

(** ** Section 1 of main.py: the company overview *)

(** What a call of the language model gives: its text, or an exception
    with its message. *)
Inductive response : Type :=
  | Text (text : string)
  | Failed (e : string).

(** Line 108. *)
Definition uncertainty_phrases : list string :=
  [ "I don't have"; "I cannot"; "I'm not able"; "insufficient information" ].

(** Line 72. *)
Definition validation_prompt (company : string) : string :=
  "Does the company '" +:+ company
  +:+ "' exist as a known business entity? Respond with 'yes' or 'no'.".

(** Lines 85-101; [role] is the text of the job-role input. *)
Definition overview_prompt (company : string) (role : option string) : string :=
  let prompt :=
    "Generate a detailed overview for the company '" +:+ company
    +:+ "'. Include details such as its foundation, "
    +:+ "CEO, services, and the countries where its products or services are available. "
    +:+ "If you're not confident about specific information, DO NOT include guesses or placeholders. "
    +:+ "Only include verified facts about the company. If you can't find enough information about this company, "
    +:+ "state clearly what information is available and what isn't." in
  match role with
  | Some role =>
      if truthy role then
        prompt
        +:+ newline +:+ newline +:+ "Also, include specific information about '" +:+ role
        +:+ "' positions at " +:+ company +:+ ", such as: "
        +:+ "1. Typical job responsibilities for " +:+ role +:+ " at " +:+ company +:+ ", "
        +:+ "2. Required skills and qualifications for this role, "
        +:+ "3. Career growth opportunities for " +:+ role +:+ " positions, "
        +:+ "4. Any specific technologies or tools used by " +:+ role +:+ "s at " +:+ company +:+ "."
        +:+ newline +:+ newline +:+ "If you don't have specific information about this role at "
        +:+ company +:+ ", clearly state that."
      else prompt
  | None => prompt
  end.

(** Lines 107-113: what is returned for the overview text of the model. *)
Definition qualify (company overview : string) : string :=
  if any (fun phrase => phrase isin lower overview) uncertainty_phrases
  then "Based on available information about '" +:+ company +:+ "':"
       +:+ newline +:+ newline +:+ overview
  else overview.

(** [generate_company_overview(company, role)], with the language model as
    the oracle [generate_content] from a prompt to a response. *)
Definition generate_company_overview (generate_content : string -> response)
    (company : string) (role : option string) : string :=
  let sorry e :=
    "Sorry, I couldn't generate information about '" +:+ company
    +:+ "' at this time. Error: " +:+ e in
  match generate_content (validation_prompt company) with
  | Failed e => sorry e
  | Text validation =>
      let company_exists := "yes" isin lower validation in
      if negb company_exists then
        "Sorry, I couldn't find reliable information about '" +:+ company
        +:+ "'. Please verify the company name or try a different company."
      else
        match generate_content (overview_prompt company role) with
        | Failed e => sorry e
        | Text overview => qualify company overview
        end
  end.

(** ** The fallback table *)

(** A dictionary literal whose iteration order the code relies on: the
    pairs in the order they are written. *)
Definition table : Type := list (string * list resource).

Definition entry (n u : string) : resource := Resource (Str n) u.

(** Lines 326-365. *)
Definition company_table : table :=
  [ ("amazon",
     [ entry "Amazon Interview Guide" "https://github.com/jwasham/coding-interview-university";
       entry "Amazon Assessment Questions" "https://github.com/twowaits/SDE-Interview-Questions/tree/master/Amazon";
       entry "Amazon Interview Questions" "https://github.com/krishnadey30/LeetCode-Questions-CompanyWise/blob/master/amazon_alltime.txt" ]);
    ("google",
     [ entry "Google Interview Questions" "https://github.com/mgechev/google-interview-preparation-problems";
       entry "Google Tech Dev Guide" "https://github.com/jayshah19949596/CodingInterviews";
       entry "Google Interview Resources" "https://github.com/krishnadey30/LeetCode-Questions-CompanyWise/blob/master/google_alltime.txt" ]);
    ("facebook",
     [ entry "Meta/Facebook Interview Questions" "https://github.com/twowaits/SDE-Interview-Questions/tree/master/Facebook";
       entry "Meta Technical Interview Guide" "https://github.com/khanhnamle1994/cracking-the-data-science-interview";
       entry "Facebook Interview Resources" "https://github.com/krishnadey30/LeetCode-Questions-CompanyWise/blob/master/facebook_alltime.txt" ]);
    ("meta",
     [ entry "Meta/Facebook Interview Questions" "https://github.com/twowaits/SDE-Interview-Questions/tree/master/Facebook";
       entry "Meta Technical Interview Guide" "https://github.com/khanhnamle1994/cracking-the-data-science-interview";
       entry "Facebook Interview Resources" "https://github.com/krishnadey30/LeetCode-Questions-CompanyWise/blob/master/facebook_alltime.txt" ]);
    ("microsoft",
     [ entry "Microsoft Interview Questions" "https://github.com/twowaits/SDE-Interview-Questions/tree/master/Microsoft";
       entry "Microsoft Interview Preparation" "https://github.com/Olshansk/interview";
       entry "Microsoft Interview Resources" "https://github.com/krishnadey30/LeetCode-Questions-CompanyWise/blob/master/microsoft_alltime.txt" ]);
    ("apple",
     [ entry "Apple Interview Preparation" "https://github.com/hxu296/leetcode-company-wise-problems-2022";
       entry "Apple Interview Questions" "https://github.com/krishnadey30/LeetCode-Questions-CompanyWise/blob/master/apple_alltime.txt";
       entry "Apple Technical Interview" "https://github.com/checkcheckzz/system-design-interview" ]);
    ("netflix",
     [ entry "Netflix Interview Questions" "https://github.com/twowaits/SDE-Interview-Questions";
       entry "Netflix Technical Interview" "https://github.com/yangshun/tech-interview-handbook" ]);
    ("tesla",
     [ entry "Tesla Interview Prep" "https://github.com/krishnadey30/LeetCode-Questions-CompanyWise";
       entry "Tesla Technical Questions" "https://github.com/h5bp/Front-end-Developer-Interview-Questions" ]) ].

(** Lines 368-393. *)
Definition role_table : table :=
  [ ("software engineer",
     [ entry "Software Engineering Interview Preparation" "https://github.com/jwasham/coding-interview-university";
       entry "Software Engineer Coding Questions" "https://github.com/twowaits/SDE-Interview-Questions" ]);
    ("frontend",
     [ entry "Frontend Interview Questions" "https://github.com/h5bp/Front-end-Developer-Interview-Questions";
       entry "Frontend Interview Handbook" "https://github.com/yangshun/front-end-interview-handbook" ]);
    ("backend",
     [ entry "Backend Interview Questions" "https://github.com/arialdomartini/Back-End-Developer-Interview-Questions";
       entry "System Design for Backend Engineers" "https://github.com/donnemartin/system-design-primer" ]);
    ("data scientist",
     [ entry "Data Science Interview Resources" "https://github.com/khanhnamle1994/cracking-the-data-science-interview";
       entry "Data Science Interview Questions" "https://github.com/alexeygrigorev/data-science-interviews" ]);
    ("machine learning",
     [ entry "Machine Learning Interviews" "https://github.com/chiphuyen/machine-learning-systems-design";
       entry "ML Interview Guide" "https://github.com/khangich/machine-learning-interview" ]);
    ("devops",
     [ entry "DevOps Interview Questions" "https://github.com/bregman-arie/devops-exercises";
       entry "DevOps Resource Collection" "https://github.com/MichaelCade/90DaysOfDevOps" ]) ].

(** A loop [for key in table: if test(key): found = table[key]; break] over
    a table, with [found] starting as the empty list. *)
Fixpoint first_match (test : string -> bool) (t : table) : list resource :=
  match t with
  | [] => []
  | (key, found) :: t' => if test key then found else first_match test t'
  end.

(** [get_improved_fallback_resources(company, job_role)] *)
Definition get_improved_fallback_resources (company : string)
    (job_role : option string) : list resource :=
  let company_lower := lower company in
  let company_specific :=
    first_match
      (fun key => (key isin company_lower) || (company_lower isin key))
      company_table in
  match job_role, company_specific with
  | Some job_role, _ :: _ =>
      if truthy job_role then
        let job_role_lower := lower job_role in
        let role_specific :=
          first_match
            (fun role_key =>
               (role_key isin job_role_lower)
               || any (fun term => term isin job_role_lower) (split role_key))
            role_table in
        match role_specific with
        | _ :: _ => (role_specific ++ company_specific)%list
        | [] => company_specific
        end
      else company_specific
  | _, _ => company_specific
  end.

(** ** Section 3 of main.py: [is_english] *)

(** [is_english(text)]: [text.encode("ascii")] raises [UnicodeEncodeError]
    exactly when a code point of [text] is above 127. *)
Fixpoint is_english (text : string) : bool :=
  match text with
  | EmptyString => true
  | String c text' => (ord c <? 128) && is_english text'
  end.

(** ** Section 2 of main.py: YouTube videos *)

Record video : Type := Video {
  title : string;
  video_url : string;
  thumbnail_url : string
}.

(** What [ydl.extract_info] gives: an exception with its message, or the
    search results, whose [entries] key may not be there. *)
Inductive ydl_outcome : Type :=
  | YdlRaised (e : string)
  | YdlInfo (entries : option (list (gmap string value))).

(** Lines 156-163: the body of the loop over the entries. An entry adds a
    video when both [entry.get('title')] and [entry.get('id')] are true. *)
Definition add_video (videos : list video) (entry : gmap string value) : list video :=
  match entry !! "title", entry !! "id" with
  | Some (Str entry_title), Some (Str video_id) =>
      if truthy entry_title && truthy video_id
      then videos
             ++ [ Video entry_title
                    ("https://www.youtube.com/watch?v=" +:+ video_id)
                    ("https://img.youtube.com/vi/" +:+ video_id +:+ "/mqdefault.jpg") ]
      else videos
  | _, _ => videos
  end.

(** [search_youtube_videos(company, topic, max_results)], with the video
    search as the oracle [extract_info]. The result is the returned list and
    the message given to [st.error], if any. *)
Definition search_youtube_videos (extract_info : string -> ydl_outcome)
    (company topic : string) (max_results : nat) : list video * option string :=
  let query := company +:+ " " +:+ topic in
  match extract_info ("ytsearch" +:+ pretty max_results +:+ ":" +:+ query) with
  | YdlRaised e => ([], Some ("Error searching YouTube videos: " +:+ e))
  | YdlInfo None => ([], None)
  | YdlInfo (Some entries) => (foldl add_video [] entries, None)
  end.

(** ** The main block *)

(** Lines 481-490: the videos of [job_videos] whose lowered title contains
    the lowered company name and a term of the lowered job role. *)
Definition relevant_job_videos (company_name job_role : string)
    (job_videos : list video) : list video :=
  let job_role_terms := split (lower job_role) in
  foldl
    (fun relevant_job_videos video =>
       let video_title := lower (title video) in
       if (lower company_name isin video_title)
          && any (fun term => term isin video_title) job_role_terms
       then relevant_job_videos ++ [video]
       else relevant_job_videos)
    [] job_videos.

(** Lines 474-498: the videos shown for the job role; [None] when the block
    is not entered because [job_role] is empty. *)
Definition job_role_videos (extract_info : string -> ydl_outcome)
    (company_name job_role : string) : option (list video) :=
  if truthy job_role then
    let job_videos :=
      (search_youtube_videos extract_info
         (company_name +:+ " " +:+ job_role +:+ " position")
         "interview experience" 3).1 in
    Some (relevant_job_videos company_name job_role job_videos)
  else None.

(** Lines 504-508: the resources shown: those of the search or, when it
    gives none, those of the fallback table. [job_role] is the text of the
    input field. *)
Definition main_resources (search : string -> option (list repo))
    (company_name job_role : string) : result (list resource) :=
  resources ← get_github_resources search company_name (Some job_role) 8;
  Ok match resources with
     | [] => get_improved_fallback_resources company_name (Some job_role)
     | _ :: _ => resources
     end.

(** ** Vocabulary of the statements *)

(** A string of whitespace only. *)
Fixpoint all_space (s : string) : bool :=
  match s with
  | EmptyString => true
  | String c s' => isspace c && all_space s'
  end.

(** The record [r] passes both relevance gates: its haystack contains the
    lowered company name and one of the keywords. *)
Definition passes (company_lower : string) (keywords : list string) (r : repo) : Prop :=
  exists h, content r = Ok h
    /\ (company_lower isin h) = true
    /\ any (fun keyword => keyword isin h) keywords = true.

(** The record [r] has the URL [u], which is not empty and not yet seen. *)
Definition fresh_url (r : repo) (st : scan_state) (u : string) : Prop :=
  r !! "html_url" = Some (Str u) /\ u <> "" /\ u ∉ seen_urls st.

(** The check of lines 299-300 on the state [st]. *)
Definition enough (max_results : nat) (st : scan_state) : flow :=
  if max_results * 2 <=? length (company_resources st) then Break else Next.

(** The state after the record of URL [u], name [v] and haystack [h] is
    accepted. *)
Definition accept (job_role : option string) (u : string) (v : value) (h : string)
    (st : scan_state) : scan_state :=
  {| seen_urls := {[ u ]} ∪ seen_urls st;
     company_resources :=
       company_resources st ++ [Candidate v u (is_role_specific job_role h)] |}.

(** The four ways an iteration of the loop ends without an exception. *)
Inductive iteration (company_lower : string) (job_role : option string)
    (keywords : list string) (max_results : nat) (r : repo) (st : scan_state)
    : flow -> scan_state -> Prop :=
  | skipped_url :
      (forall u, r !! "html_url" = Some (Str u) -> u = "" \/ u ∈ seen_urls st) ->
      iteration company_lower job_role keywords max_results r st Next st
  | rejected_company u h :
      fresh_url r st u ->
      content r = Ok h ->
      (company_lower isin h) = false ->
      iteration company_lower job_role keywords max_results r st Next st
  | rejected_keyword u h :
      fresh_url r st u ->
      content r = Ok h ->
      (company_lower isin h) = true ->
      any (fun keyword => keyword isin h) keywords = false ->
      iteration company_lower job_role keywords max_results r st
        (enough max_results st) st
  | accepted_record u h v :
      fresh_url r st u ->
      content r = Ok h ->
      (company_lower isin h) = true ->
      any (fun keyword => keyword isin h) keywords = true ->
      r !! "full_name" = Some v ->
      iteration company_lower job_role keywords max_results r st
        (enough max_results (accept job_role u v h st)) (accept job_role u v h st).

(** The entry [c] was made from the record [r]: it has the URL and the
    [full_name] of [r], and the haystack of [r] passes both gates. *)
Definition made_from (company_lower : string) (job_role : option string)
    (keywords : list string) (r : repo) (c : candidate) : Prop :=
  exists h,
    r !! "html_url" = Some (Str (cand_url c))
    /\ cand_url c <> ""
    /\ r !! "full_name" = Some (cand_name c)
    /\ content r = Ok h
    /\ (company_lower isin h) = true
    /\ any (fun keyword => keyword isin h) keywords = true
    /\ role_specific c = is_role_specific job_role h.

(** The entry [c] was made from the first record of [l] that has the URL
    of [c] and passes both gates. *)
Definition first_passing (company_lower : string) (job_role : option string)
    (keywords : list string) (l : list repo) (c : candidate) : Prop :=
  exists l1 r l2,
    l = l1 ++ r :: l2
    /\ made_from company_lower job_role keywords r c
    /\ forall r', r' ∈ l1 ->
          r' !! "html_url" = Some (Str (cand_url c)) ->
          ~ passes company_lower keywords r'.

(** A record with its four keys, for the examples. *)
Definition mk_repo (html_url name description full_name : string) : repo :=
  {[ "html_url" := Str html_url; "name" := Str name;
     "description" := Str description; "full_name" := Str full_name ]}.

(** The guard [job_role and job_role.strip()] as a truth value. *)
Definition role_supplied (job_role : option string) : bool :=
  if_role job_role (fun _ => true) false.

(** The entries the fallback table holds for Facebook, and for the
    frontend role. *)
Definition meta_facebook_entries : list resource :=
  [ entry "Meta/Facebook Interview Questions" "https://github.com/twowaits/SDE-Interview-Questions/tree/master/Facebook";
    entry "Meta Technical Interview Guide" "https://github.com/khanhnamle1994/cracking-the-data-science-interview";
    entry "Facebook Interview Resources" "https://github.com/krishnadey30/LeetCode-Questions-CompanyWise/blob/master/facebook_alltime.txt" ].

Definition frontend_entries : list resource :=
  [ entry "Frontend Interview Questions" "https://github.com/h5bp/Front-end-Developer-Interview-Questions";
    entry "Frontend Interview Handbook" "https://github.com/yangshun/front-end-interview-handbook" ].

(** A language model that knows the company and is unsure about it. *)
Definition unsure_model (prompt : string) : response :=
  if String.eqb prompt (validation_prompt "Acme") then Text "Yes."
  else Text "I cannot provide details about this company.".

(** A text that does not start with whitespace. *)
Definition starts_clean (s : string) : bool :=
  match s with
  | EmptyString => true
  | String c _ => negb (isspace c)
  end.

(** The loop of lines 269-300 together with the way it ends: [Break] when
    it was left by [break], [Next] when it ran to the end of the list. *)
Fixpoint scan_flow (company_lower : string) (job_role : option string)
    (interview_keywords : list string) (max_results : nat)
    (all_results : list repo) (st : scan_state) : result (flow * scan_state) :=
  match all_results with
  | [] => Ok (Next, st)
  | r :: rest =>
      out ← loop_body company_lower job_role interview_keywords max_results r st;
      match out with
      | (Next, st') =>
          scan_flow company_lower job_role interview_keywords max_results rest st'
      | (Break, st') => Ok (Break, st')
      end
  end.

(** The entries the role table holds for the software engineer role. *)
Definition software_engineer_entries : list resource :=
  [ entry "Software Engineering Interview Preparation" "https://github.com/jwasham/coding-interview-university";
    entry "Software Engineer Coding Questions" "https://github.com/twowaits/SDE-Interview-Questions" ].

(** The test of line 400 on a key of the company table. *)
Definition company_key_matches (company key : string) : bool :=
  (key isin lower company) || (lower company isin key).

(** The entries the fallback table holds for Amazon. *)
Definition amazon_entries : list resource :=
  [ entry "Amazon Interview Guide" "https://github.com/jwasham/coding-interview-university";
    entry "Amazon Assessment Questions" "https://github.com/twowaits/SDE-Interview-Questions/tree/master/Amazon";
    entry "Amazon Interview Questions" "https://github.com/krishnadey30/LeetCode-Questions-CompanyWise/blob/master/amazon_alltime.txt" ].

(** An entry of the video search with a title and an id, and one with an
    empty title. *)
Definition titled_entry (t i : string) : gmap string value :=
  {[ "title" := Str t; "id" := Str i ]}.

(** A video search that answers every query with the same three entries,
    the second without a title. *)
Definition three_entries (query : string) : ydl_outcome :=
  YdlInfo (Some [ titled_entry "Acme backend interview" "abc";
                  titled_entry "" "def";
                  titled_entry "Cooking pasta" "ghi" ]).

(** ** Sample inputs *)

(** Two records: one without the company name, one that passes both gates
    for the company Acme. *)
Definition sample_results : list repo :=
  [ mk_repo "https://github.com/a/notes" "notes" "LeetCode notes" "a/notes";
    mk_repo "https://github.com/b/acme-prep" "acme-prep" "Acme interview questions" "b/acme-prep" ].

(** Two records of one URL: the first fails the company-name gate, the
    second passes both gates. *)
Definition notes_record : repo :=
  mk_repo "https://github.com/acme/prep" "notes" "study notes" "alice/notes".
Definition prep_record : repo :=
  mk_repo "https://github.com/acme/prep" "acme-prep" "Acme interview questions" "bob/prep".

(** Two records that are accepted for the company Acme, and a record
    with a null name, which raises when it is looked at. *)
Definition stop_prefix : list repo :=
  [ mk_repo "https://github.com/a/one" "acme-one" "Acme interview questions" "a/one";
    mk_repo "https://github.com/b/two" "acme-two" "Acme leetcode" "b/two" ].
Definition stop_rest : list repo :=
  [ {[ "html_url" := Str "https://github.com/c/three"; "name" := PyNone ]} ].

(** A record with no description key. *)
Definition bare_record : repo :=
  {[ "html_url" := Str "https://github.com/a/acme";
     "name" := Str "Acme-LeetCode";
     "full_name" := Str "a/acme" ]}.

(** Sixteen records of sixteen URLs that pass both gates for the company
    Acme, and the entries accepted for them. *)
Definition letters : list ascii :=
  String.list_ascii_of_string "abcdefghijklmnop".

Definition filler (c : ascii) : repo :=
  mk_repo ("https://github.com/acme/" +:+ String c "") "acme"
    "interview questions" ("acme/" +:+ String c "").

Definition filler_candidate (c : ascii) : candidate :=
  Candidate (Str ("acme/" +:+ String c ""))
    ("https://github.com/acme/" +:+ String c "") false.

(** A role of a space, a tab and a space. *)
Definition blank_role : string := " " +:+ String (ascii_of_nat 9) " ".

(** * Properties *)

(** ** Text *)

Section TextFacts.

Lemma if_role_no {A : Type} (job_role : option string) (yes : string -> A) (no : A) :
  (forall s, job_role = Some s -> truthy s && truthy (strip s) = false) ->
  if_role job_role yes no = no.
Proof.
  intros H. unfold if_role. destruct job_role as [s|]; [|reflexivity].
  now rewrite (H s eq_refl).
Qed.

Lemma lstrip_all_space s : all_space s = true -> lstrip s = EmptyString.
Proof.
  induction s as [|c s IH]; simpl; [reflexivity|].
  intros [Hc Hs]%andb_prop. rewrite Hc. auto.
Qed.

Lemma strip_all_space s : all_space s = true -> strip s = EmptyString.
Proof. intros H. unfold strip. now rewrite lstrip_all_space. Qed.

Lemma if_role_all_space {A : Type} (s : string) (yes : string -> A) (no : A) :
  all_space s = true -> if_role (Some s) yes no = no.
Proof.
  intros H. apply if_role_no. intros s' [= <-].
  rewrite strip_all_space by assumption. apply andb_false_r.
Qed.

(** No character is lowered to the capital letter I. *)
Lemma lower_char_not_I c : lower_char c <> "I"%char.
Proof. destruct c as [[] [] [] [] [] [] [] []]; vm_compute; discriminate. Qed.

Lemma prefix_I_lower needle s :
  String.prefix (String "I"%char needle) (lower s) = false.
Proof.
  destruct s as [|c s]; [reflexivity|].
  change (match ascii_dec "I" (lower_char c) with
          | left _ => String.prefix needle (lower s)
          | right _ => false
          end = false).
  destruct (ascii_dec "I" (lower_char c)) as [E|]; [|reflexivity].
  now destruct (lower_char_not_I c).
Qed.

(** A needle that starts with a capital I is in no lowered text. *)
Lemma capital_I_not_in_lower needle s :
  (String "I"%char needle isin lower s) = false.
Proof.
  induction s as [|c s IH].
  - reflexivity.
  - change (lower (String c s)) with (String (lower_char c) (lower s)).
    unfold contains; fold contains.
    change (String (lower_char c) (lower s)) with (lower (String c s)).
    rewrite prefix_I_lower. exact IH.
Qed.

End TextFacts.

(** ** The stable sort *)

Section SortFacts.

Context {A : Type} (key : A -> bool).

Lemma insert_by_false x l : key x = false -> insert_by key x l = x :: l.
Proof.
  intros Hx. destruct l as [|y l]; simpl; [reflexivity|].
  now rewrite Hx, andb_false_r.
Qed.

Lemma insert_by_true x (lo hi : list A) :
  key x = true ->
  Forall (fun y => key y = false) lo ->
  Forall (fun y => key y = true) hi ->
  insert_by key x (lo ++ hi) = lo ++ x :: hi.
Proof.
  intros Hx Hlo Hhi. induction Hlo as [|y lo Hy _ IH]; simpl.
  - destruct Hhi as [|z hi Hz _]; simpl; [reflexivity|].
    now rewrite Hz.
  - now rewrite Hy, Hx, IH.
Qed.

(** The stable sort by a truth value is the entries of key [False] in
    their order, followed by the entries of key [True] in their order. *)
Lemma sort_by_partition (l : list A) :
  sort_by key l
  = List.filter (fun x => negb (key x)) l ++ List.filter key l.
Proof.
  induction l as [|x l IH]; simpl; [reflexivity|].
  rewrite IH. destruct (key x) eqn:Hx; simpl.
  - apply insert_by_true; [assumption| |].
    + apply Forall_forall. intros y Hy%list_elem_of_In%filter_In.
      now apply negb_true_iff.
    + apply Forall_forall. intros y Hy%list_elem_of_In%filter_In. tauto.
  - now apply insert_by_false.
Qed.

Lemma insert_by_perm x l : insert_by key x l ≡ₚ x :: l.
Proof.
  induction l as [|y l IH]; simpl; [reflexivity|].
  destruct (negb (key y) && key x); [|reflexivity].
  rewrite IH. apply Permutation_swap.
Qed.

Lemma sort_by_perm l : sort_by key l ≡ₚ l.
Proof.
  induction l as [|x l IH]; simpl; [reflexivity|].
  now rewrite insert_by_perm, IH.
Qed.

End SortFacts.

(** ** One iteration of the loop *)

Section Loop.

Context (company_lower : string) (job_role : option string)
        (keywords : list string) (max_results : nat).

Abbreviation loop_body' := (loop_body company_lower job_role keywords max_results).
Abbreviation scan' := (scan company_lower job_role keywords max_results).
Abbreviation iteration' := (iteration company_lower job_role keywords max_results).

Lemma truthy_nonempty s : truthy s = true <-> s <> "".
Proof. destruct s; unfold truthy; simpl; split; intros H; congruence. Qed.

Lemma loop_body_iteration r st f st' :
  loop_body' r st = Ok (f, st') <-> iteration' r st f st'.
Proof.
  split.
  - unfold loop_body.
    destruct (r !! "html_url") as [[|u]|] eqn:Hu;
      try (intros [= <- <-]; apply skipped_url; intros; congruence).
    destruct (truthy u) eqn:Ht; simpl;
      [|intros [= <- <-]; apply skipped_url; intros u' Hu';
        assert (u' = u) as -> by congruence;
        left; destruct u; [reflexivity|discriminate]].
    case_bool_decide as Hseen; simpl;
      [intros [= <- <-]; apply skipped_url; intros u' Hu';
       assert (u' = u) as -> by congruence; now right|].
    assert (fresh_url r st u) as Hfresh
      by (repeat split; [assumption|now apply truthy_nonempty|assumption]).
    destruct (content r) as [h|e] eqn:Hc; simpl; [|discriminate].
    destruct (company_lower isin h) eqn:Hcomp; simpl;
      [|intros [= <- <-]; eapply rejected_company; eassumption].
    destruct (any (fun keyword => keyword isin h) keywords) eqn:Hkw; simpl.
    + destruct (r !! "full_name") as [v|] eqn:Hf; simpl; [|discriminate].
      intros H.
      assert (f = enough max_results (accept job_role u v h st)
              /\ st' = accept job_role u v h st) as [-> ->].
      { unfold enough, accept in *; simpl in *.
        destruct (_ <=? _); injection H as <- <-; now split. }
      eapply accepted_record; eassumption.
    + intros H.
      assert (f = enough max_results st /\ st' = st) as [-> ->].
      { unfold enough. destruct (_ <=? _); injection H as <- <-; now split. }
      eapply rejected_keyword; eassumption.
  - intros [Hskip|u h [Hu [Hne Hseen]] Hc Hcomp|u h [Hu [Hne Hseen]] Hc Hcomp Hkw
            |u h v [Hu [Hne Hseen]] Hc Hcomp Hkw Hf]; unfold loop_body.
    + destruct (r !! "html_url") as [[|u]|] eqn:Hu; try reflexivity.
      destruct (Hskip u eq_refl) as [->|Hin]; [reflexivity|].
      rewrite (bool_decide_eq_true_2 _ Hin). now rewrite orb_true_r.
    + rewrite Hu, (proj2 (truthy_nonempty u) Hne), (bool_decide_eq_false_2 _ Hseen).
      simpl. rewrite Hc. simpl. now rewrite Hcomp.
    + rewrite Hu, (proj2 (truthy_nonempty u) Hne), (bool_decide_eq_false_2 _ Hseen).
      simpl. rewrite Hc. simpl. rewrite Hcomp, Hkw. simpl.
      unfold enough. now destruct (_ <=? _).
    + rewrite Hu, (proj2 (truthy_nonempty u) Hne), (bool_decide_eq_false_2 _ Hseen).
      simpl. rewrite Hc. simpl. rewrite Hcomp, Hkw. simpl. rewrite Hf. simpl.
      unfold enough, accept. simpl. now destruct (_ <=? _).
Qed.

Lemma iteration_effect r st f st1 :
  iteration' r st f st1 ->
  (st1 = st /\ forall u, fresh_url r st u -> ~ passes company_lower keywords r)
  \/ (exists u h v,
        fresh_url r st u /\ content r = Ok h
        /\ (company_lower isin h) = true
        /\ any (fun keyword => keyword isin h) keywords = true
        /\ r !! "full_name" = Some v
        /\ st1 = accept job_role u v h st).
Proof.
  intros [Hskip|u h Hfresh Hc Hcomp|u h Hfresh Hc Hcomp Hkw|u h v Hfresh Hc Hcomp Hkw Hf].
  - left. split; [reflexivity|]. intros u [Hu [Hne Hseen]] _.
    destruct (Hskip u Hu); contradiction.
  - left. split; [reflexivity|]. intros _ _ (h' & Hc' & Hcomp' & _). congruence.
  - left. split; [reflexivity|]. intros _ _ (h' & Hc' & _ & Hkw').
    rewrite Hc in Hc'. injection Hc' as <-. congruence.
  - right. exists u, h, v. tauto.
Qed.

(** The loop goes on only while fewer than [2 * max_results] entries are
    accepted. *)
Lemma iteration_next_below r st st1 :
  iteration' r st Next st1 ->
  length (company_resources st) < max_results * 2 ->
  length (company_resources st1) < max_results * 2.
Proof.
  intros H Hlt. inversion H as [| | u h ? ? ? ? Hfl|u h v ? ? ? ? ? Hfl]; subst;
    try assumption.
  unfold enough in Hfl. destruct (_ <=? _) eqn:E; [discriminate|].
  now apply Nat.leb_gt in E.
Qed.

Lemma first_passing_here r l c :
  made_from company_lower job_role keywords r c ->
  first_passing company_lower job_role keywords (r :: l) c.
Proof. intros Hm. exists [], r, l. split; [reflexivity|]. split; [assumption|]. inversion 1. Qed.

Lemma first_passing_later r l c :
  (r !! "html_url" = Some (Str (cand_url c)) -> ~ passes company_lower keywords r) ->
  first_passing company_lower job_role keywords l c ->
  first_passing company_lower job_role keywords (r :: l) c.
Proof.
  intros Hr (l1 & r0 & l2 & -> & Hm & Hfirst).
  exists (r :: l1), r0, l2. split; [reflexivity|]. split; [assumption|].
  intros r' [->|Hr']%elem_of_cons Hu; [now apply Hr|now apply Hfirst].
Qed.

(** What a run of the loop adds to its state. *)
Lemma scan_new l st st' :
  scan' l st = Ok st' ->
  exists new,
    company_resources st' = company_resources st ++ new
    /\ seen_urls st' = list_to_set (cand_url <$> new) ∪ seen_urls st
    /\ NoDup (cand_url <$> new)
    /\ forall c, c ∈ new ->
          (cand_url c ∉ seen_urls st)
          /\ first_passing company_lower job_role keywords l c.
Proof.
  revert st. induction l as [|r l IH]; intros st; simpl.
  - intros [= <-]. exists []. rewrite app_nil_r. simpl.
    split; [reflexivity|]. split; [set_solver|]. split; [constructor|].
    intros c Hin. inversion Hin.
  - destruct (loop_body' r st) as [[f st1]|e] eqn:Hb; simpl; [|discriminate].
    intros Hs.
    assert (scan' l st1 = Ok st' \/ st' = st1) as Hrest
      by (destruct f; [now left|right; congruence]).
    clear Hs.
    apply loop_body_iteration, iteration_effect in Hb.
    destruct Hb as [[-> Hno]|(u & h & v & Hfresh & Hc & Hcomp & Hkw & Hf & ->)].
    + destruct Hrest as [Hs| ->].
      * destruct (IH _ Hs) as (new & Hcr & Hseen & Hnd & Hnew).
        exists new. split; [assumption|]. split; [assumption|]. split; [assumption|].
        intros c Hin. destruct (Hnew c Hin) as [Hnot Hfp]. split; [assumption|].
        apply first_passing_later; [|assumption].
        intros Hu. apply (Hno (cand_url c)).
        destruct Hfp as (_ & _ & _ & _ & (? & _ & ? & _) & _).
        now repeat split.
      * exists []. rewrite app_nil_r. simpl.
        split; [reflexivity|]. split; [set_solver|]. split; [constructor|].
        intros c Hin. inversion Hin.
    + set (c0 := Candidate v u (is_role_specific job_role h)).
      assert (made_from company_lower job_role keywords r c0) as Hm0.
      { exists h. destruct Hfresh as (? & ? & ?). now repeat split. }
      destruct Hfresh as (Hu & Hne & Hunseen).
      destruct Hrest as [Hs| ->].
      * destruct (IH _ Hs) as (new & Hcr & Hseen & Hnd & Hnew).
        simpl in Hcr, Hseen.
        assert (forall c, c ∈ new -> cand_url c <> u) as Hother.
        { intros c Hin. destruct (Hnew c Hin) as [Hnot _]. simpl in Hnot. set_solver. }
        exists (c0 :: new). simpl.
        split; [now rewrite Hcr, <- app_assoc|].
        split; [rewrite Hseen; set_solver|].
        split.
        { constructor; [|assumption].
          intros (c & Hcu & Hin)%list_elem_of_fmap. now apply (Hother c Hin). }
        intros c [->|Hin]%elem_of_cons.
        -- split; [assumption|]. now apply first_passing_here.
        -- destruct (Hnew c Hin) as [Hnot Hfp]. simpl in Hnot.
           split; [set_solver|].
           apply first_passing_later; [|assumption].
           intros Hu'. rewrite Hu in Hu'. injection Hu' as ->.
           now destruct (Hother c Hin).
      * exists [c0]. simpl.
        split; [reflexivity|]. split; [set_solver|]. split; [apply NoDup_singleton|].
        intros c ->%list_elem_of_singleton.
        split; [assumption|]. now apply first_passing_here.
Qed.

Lemma iteration_next_cases r st st1 :
  iteration' r st Next st1 ->
  st1 = st \/ length (company_resources st1) < max_results * 2.
Proof.
  intros H. inversion H as [| | |u h v ? ? ? ? ? Hfl]; subst; try (now left).
  right. unfold enough in Hfl. destruct (_ <=? _) eqn:E; [discriminate|].
  now apply Nat.leb_gt in E.
Qed.

(** Once an acceptance has brought the count to [2 * max_results], the
    rest of the input is not looked at. *)
Lemma scan_stop l1 l2 st st' :
  scan' l1 st = Ok st' ->
  length (company_resources st) < length (company_resources st') ->
  max_results * 2 <= length (company_resources st') ->
  scan' (l1 ++ l2) st = Ok st'.
Proof.
  revert st. induction l1 as [|r l1 IH]; intros st; simpl.
  - intros [= <-] Hlt. lia.
  - destruct (loop_body' r st) as [[[] st1]|e] eqn:Hb; simpl;
      [|trivial|discriminate].
    intros Hs Hlt Hge. apply IH; [assumption| |assumption].
    apply loop_body_iteration, iteration_next_cases in Hb as [->|Hb]; lia.
Qed.

(** The state never loses an accepted entry. *)
Lemma scan_grows l st st' :
  scan' l st = Ok st' ->
  length (company_resources st) <= length (company_resources st').
Proof.
  intros (new & -> & _)%scan_new. rewrite length_app. lia.
Qed.

(** With a positive cap the accepted count never passes [2 * max_results]. *)
Lemma scan_bound l st st' :
  length (company_resources st) < max_results * 2 ->
  scan' l st = Ok st' ->
  length (company_resources st') <= max_results * 2.
Proof.
  revert st. induction l as [|r l IH]; intros st Hlt; simpl.
  - intros [= <-]. lia.
  - destruct (loop_body' r st) as [[f st1]|e] eqn:Hb; simpl; [|discriminate].
    apply loop_body_iteration in Hb. destruct f.
    + apply IH. now apply (iteration_next_below r st).
    + intros [= <-].
      apply iteration_effect in Hb
        as [[-> _]|(u & h & v & _ & _ & _ & _ & _ & ->)]; [lia|].
      unfold accept. simpl. rewrite length_app. simpl. lia.
Qed.

(** A record that fails a gate, met below the threshold, leaves the state
    as it is and the loop running. *)
Lemma loop_body_rejected r st h :
  content r = Ok h ->
  (company_lower isin h) = false
    \/ any (fun keyword => keyword isin h) keywords = false ->
  length (company_resources st) < max_results * 2 ->
  loop_body' r st = Ok (Next, st).
Proof.
  intros Hc Hgate Hlt. unfold loop_body.
  destruct (r !! "html_url") as [[|u]|]; try reflexivity.
  destruct (negb (truthy u) || bool_decide (u ∈ seen_urls st)); [reflexivity|].
  rewrite Hc. simpl.
  destruct (company_lower isin h) eqn:Hcomp; simpl; [|reflexivity].
  destruct Hgate as [Hgate|Hgate]; [discriminate|]. rewrite Hgate. simpl.
  now apply Nat.leb_gt in Hlt as ->.
Qed.

Lemma scan_remove_rejected l1 r l2 st h :
  content r = Ok h ->
  (company_lower isin h) = false
    \/ any (fun keyword => keyword isin h) keywords = false ->
  length (company_resources st) < max_results * 2 ->
  scan' (l1 ++ r :: l2) st = scan' (l1 ++ l2) st.
Proof.
  intros Hc Hgate. revert st. induction l1 as [|r1 l1 IH]; intros st Hlt; simpl.
  - now rewrite (loop_body_rejected r st h).
  - destruct (loop_body' r1 st) as [[[] st1]|e] eqn:Hb; simpl; try reflexivity.
    apply IH. apply loop_body_iteration in Hb. now apply (iteration_next_below r1 st).
Qed.

(** The loop is left only at the threshold. *)
Lemma iteration_break r st st1 :
  iteration' r st Break st1 ->
  max_results * 2 <= length (company_resources st1).
Proof.
  remember Break as f eqn:Hf. intros H.
  destruct H as [| | |]; try discriminate;
    unfold enough in Hf; destruct (_ <=? _) eqn:E; try discriminate;
    now apply Nat.leb_le in E.
Qed.

(** While fewer than [2 * max_results] entries are accepted the loop goes
    on: the rest of the input is scanned from the state reached. *)
Lemma scan_continue l1 l2 st st1 :
  scan' l1 st = Ok st1 ->
  length (company_resources st1) < max_results * 2 ->
  scan' (l1 ++ l2) st = scan' l2 st1.
Proof.
  revert st. induction l1 as [|r l1 IH]; intros st; simpl.
  - now intros [= <-].
  - destruct (loop_body' r st) as [[[] sta]|e] eqn:Hb; simpl;
      [apply IH| |discriminate].
    intros [= <-] Hlt.
    apply loop_body_iteration, iteration_break in Hb. lia.
Qed.

End Loop.

(** ** The filter as a whole *)

Section Filter.

Context (company : string) (job_role : option string) (max_results : nat).

Lemma first_results_take (l : list resource) :
  first_results max_results l = take max_results l.
Proof. destruct l; [now rewrite take_nil|reflexivity]. Qed.

Lemma prioritize_perm (jr : option string) (l : list candidate) :
  prioritize jr l ≡ₚ l.
Proof.
  unfold prioritize, if_role. destruct jr as [s|]; [|reflexivity].
  destruct (truthy s && truthy (strip s)); [apply sort_by_perm|reflexivity].
Qed.

Lemma prioritize_nil (jr : option string) : prioritize jr [] = [].
Proof.
  unfold prioritize, if_role. destruct jr as [s|]; [|reflexivity].
  now destruct (truthy s && truthy (strip s)).
Qed.

(** The filter by its phases. *)
Lemma relevance_filter_phases (l : list repo) :
  relevance_filter company job_role max_results l
  = acc ← (accepted company job_role max_results l).1;
    Ok (take max_results
          (drop_role_specific
             <$> prioritize (accepted company job_role max_results l).2 acc)).
Proof.
  unfold relevance_filter. destruct l as [|r l].
  - unfold accepted. destruct (interview_keywords job_role) as [kws jr]. simpl.
    rewrite prioritize_nil. simpl. now rewrite take_nil.
  - destruct (accepted company job_role max_results (r :: l)) as [[acc|e] jr]; simpl;
      [|reflexivity].
    now rewrite first_results_take.
Qed.

Lemma accepted_scan (l : list repo) :
  accepted company job_role max_results l
  = (st ← scan (lower company) (interview_keywords job_role).2
             (interview_keywords job_role).1 max_results l
             {| seen_urls := ∅; company_resources := [] |};
     Ok (company_resources st),
     (interview_keywords job_role).2).
Proof. unfold accepted. now destruct (interview_keywords job_role). Qed.

(** Where the accepted entries come from. *)
Lemma accepted_origin (l : list repo) (acc : list candidate) :
  (accepted company job_role max_results l).1 = Ok acc ->
  NoDup (cand_url <$> acc)
  /\ forall c, c ∈ acc ->
       first_passing (lower company) (interview_keywords job_role).2
         (interview_keywords job_role).1 l c.
Proof.
  rewrite accepted_scan. simpl.
  destruct (scan _ _ _ _ _ _) as [st|e] eqn:Hs; simpl; [|discriminate].
  intros [= <-]. apply scan_new in Hs as (new & Hcr & _ & Hnd & Hnew).
  simpl in Hcr. rewrite Hcr. split; [assumption|].
  intros c Hin. now apply Hnew.
Qed.

(** Where the returned entries come from. *)
Lemma relevance_filter_origin (l : list repo) (res : list resource) :
  relevance_filter company job_role max_results l = Ok res ->
  NoDup (url <$> res)
  /\ forall e, e ∈ res ->
       exists c, e = drop_role_specific c
         /\ first_passing (lower company) (interview_keywords job_role).2
              (interview_keywords job_role).1 l c.
Proof.
  rewrite relevance_filter_phases.
  destruct ((accepted company job_role max_results l).1) as [acc|e] eqn:Hacc;
    simpl; [|discriminate].
  intros [= <-]. apply accepted_origin in Hacc as [Hnd Horigin]. split.
  - rewrite fmap_take. eapply sublist_NoDup; [|apply sublist_take].
    rewrite <- list_fmap_compose.
    change (url ∘ drop_role_specific) with cand_url.
    now rewrite prioritize_perm.
  - intros e Hin%subseteq_take.
    apply list_elem_of_fmap in Hin as (c & -> & Hc).
    exists c. split; [reflexivity|]. apply Horigin.
    now rewrite prioritize_perm in Hc.
Qed.

End Filter.

(** [get_github_resources] is the filter on what the queries fetch. *)
Lemma get_github_resources_filter
    (search : string -> option (list repo)) (company : string)
    (job_role : option string) (max_results : nat) :
  get_github_resources search company job_role max_results
  = relevance_filter company (build_queries company job_role).2 max_results
      (fetch search (build_queries company job_role).1).
Proof.
  unfold get_github_resources. now destruct (build_queries company job_role).
Qed.

(** ** The two relevance gates *)

(** Claim C1. Every entry the relevance filter returns was made from a record
    of the input whose haystack, the lowered name, a space and the lowered
    description (empty when there is none), contains the lowered company
    name: no record that fails the company-name gate is returned, whatever
    keywords it holds. *)
Theorem company_gate_mandatory
    (company : string) (job_role : option string) (max_results : nat)
    (all_results : list repo) (res : list resource) (e : resource) :
  relevance_filter company job_role max_results all_results = Ok res ->
  e ∈ res ->
  exists r h,
    r ∈ all_results
    /\ r !! "html_url" = Some (Str (url e))
    /\ r !! "full_name" = Some (name e)
    /\ content r = Ok h
    /\ (lower company isin h) = true.
Proof.
  intros Hres Hin.
  destruct (relevance_filter_origin _ _ _ _ _ Hres) as [_ Horigin].
  destruct (Horigin e Hin)
    as (c & -> & l1 & r & l2 & -> & (h & Hu & _ & Hf & Hc & Hcomp & _) & _).
  exists r, h. split; [|now repeat split].
  apply elem_of_app. right. left.
Qed.

Lemma company_gate_mandatory_witness :
  relevance_filter "Acme" None 8 sample_results
    = Ok [Resource (Str "b/acme-prep") "https://github.com/b/acme-prep"]
  /\ exists r h,
       r ∈ sample_results
       /\ r !! "html_url" = Some (Str "https://github.com/b/acme-prep")
       /\ r !! "full_name" = Some (Str "b/acme-prep")
       /\ content r = Ok h
       /\ (lower "Acme" isin h) = true.
Proof.
  split; [vm_compute; reflexivity|].
  apply (company_gate_mandatory "Acme" None 8 sample_results
           [Resource (Str "b/acme-prep") "https://github.com/b/acme-prep"]
           (Resource (Str "b/acme-prep") "https://github.com/b/acme-prep"));
    [vm_compute; reflexivity|left].
Defined.

(** The keyword list of lines 251-263: the eleven fixed phrases, followed,
    when a role is given, by the role text and the role text without its
    spaces. *)
Lemma interview_keywords_list (job_role : option string) :
  (interview_keywords job_role).1
  = base_keywords
    ++ if_role job_role
         (fun s => [lower (strip s); remove_spaces (lower (strip s))]) [].
Proof.
  unfold interview_keywords, if_role. destruct job_role as [s|]; [|reflexivity].
  now destruct (truthy s && truthy (strip s)).
Qed.

Lemma any_true {A : Type} (p : A -> bool) (xs : list A) :
  any p xs = true <-> exists x, x ∈ xs /\ p x = true.
Proof.
  unfold any. rewrite existsb_exists.
  split; intros (x & Hx & Hp); exists x; split; try assumption;
    now apply list_elem_of_In.
Qed.

(** Claim C2. Every entry the relevance filter returns was made from a record
    of the input whose haystack contains the lowered company name and also
    one of the interview keywords (the fixed phrases, with the role text and
    its form without spaces when a role is given): both gates hold of every
    returned record. *)
Theorem keyword_gate_mandatory
    (company : string) (job_role : option string) (max_results : nat)
    (all_results : list repo) (res : list resource) (e : resource) :
  relevance_filter company job_role max_results all_results = Ok res ->
  e ∈ res ->
  exists r h keyword,
    r ∈ all_results
    /\ r !! "html_url" = Some (Str (url e))
    /\ r !! "full_name" = Some (name e)
    /\ content r = Ok h
    /\ (lower company isin h) = true
    /\ keyword ∈ base_keywords
                   ++ if_role job_role
                        (fun s => [lower (strip s); remove_spaces (lower (strip s))]) []
    /\ (keyword isin h) = true.
Proof.
  intros Hres Hin.
  destruct (relevance_filter_origin _ _ _ _ _ Hres) as [_ Horigin].
  destruct (Horigin e Hin)
    as (c & -> & l1 & r & l2 & -> & (h & Hu & _ & Hf & Hc & Hcomp & Hkw & _) & _).
  apply any_true in Hkw as (keyword & Hk & Hkin).
  rewrite interview_keywords_list in Hk.
  exists r, h, keyword. split; [|now repeat split].
  apply elem_of_app. right. left.
Qed.

Lemma keyword_gate_mandatory_witness :
  relevance_filter "Acme" (Some "Data Scientist") 8 sample_results
    = Ok [Resource (Str "b/acme-prep") "https://github.com/b/acme-prep"]
  /\ exists r h keyword,
       r ∈ sample_results
       /\ r !! "html_url" = Some (Str "https://github.com/b/acme-prep")
       /\ r !! "full_name" = Some (Str "b/acme-prep")
       /\ content r = Ok h
       /\ (lower "Acme" isin h) = true
       /\ keyword ∈ base_keywords
                      ++ if_role (Some "Data Scientist")
                           (fun s => [lower (strip s); remove_spaces (lower (strip s))]) []
       /\ (keyword isin h) = true.
Proof.
  split; [vm_compute; reflexivity|].
  apply (keyword_gate_mandatory "Acme" (Some "Data Scientist") 8 sample_results
           [Resource (Str "b/acme-prep") "https://github.com/b/acme-prep"]
           (Resource (Str "b/acme-prep") "https://github.com/b/acme-prep"));
    [vm_compute; reflexivity|left].
Defined.

(** ** Deduplication *)

(** Claim C3, as stated, fails: of two records with one URL and different
    names, the filter returns the second when the first is rejected by a
    gate, because a URL is marked as seen only when its record is
    accepted. *)
Lemma later_duplicate_retained :
  notes_record !! "html_url" = prep_record !! "html_url"
  /\ notes_record !! "full_name" = Some (Str "alice/notes")
  /\ relevance_filter "Acme" None 8 [notes_record; prep_record]
     = Ok [Resource (Str "bob/prep") "https://github.com/acme/prep"].
Proof. vm_compute. repeat split; reflexivity. Qed.

(** Claim C3, amended. No two returned entries have the same URL, and every
    returned entry was made from the first record, in input order, that has
    its URL and passes both gates: a record of the same URL further on is
    skipped, and a record of the same URL before it failed a gate. *)
Theorem dedup_first_passing
    (company : string) (job_role : option string) (max_results : nat)
    (all_results : list repo) (res : list resource) :
  relevance_filter company job_role max_results all_results = Ok res ->
  NoDup (url <$> res)
  /\ forall e, e ∈ res ->
       exists l1 r l2,
         all_results = l1 ++ r :: l2
         /\ r !! "html_url" = Some (Str (url e))
         /\ r !! "full_name" = Some (name e)
         /\ passes (lower company) (interview_keywords job_role).1 r
         /\ forall r', r' ∈ l1 ->
               r' !! "html_url" = Some (Str (url e)) ->
               ~ passes (lower company) (interview_keywords job_role).1 r'.
Proof.
  intros Hres.
  destruct (relevance_filter_origin _ _ _ _ _ Hres) as [Hnd Horigin].
  split; [assumption|]. intros e Hin.
  destruct (Horigin e Hin)
    as (c & -> & l1 & r & l2 & -> & (h & Hu & _ & Hf & Hc & Hcomp & Hkw & _) & Hfirst).
  exists l1, r, l2. split; [reflexivity|]. split; [assumption|]. split; [assumption|].
  split; [|assumption]. exists h. now repeat split.
Qed.

Lemma dedup_first_passing_witness :
  relevance_filter "Acme" None 8 [prep_record; notes_record; prep_record]
    = Ok [Resource (Str "bob/prep") "https://github.com/acme/prep"]
  /\ NoDup (url <$> [Resource (Str "bob/prep") "https://github.com/acme/prep"])
  /\ forall e, e ∈ [Resource (Str "bob/prep") "https://github.com/acme/prep"] ->
       exists l1 r l2,
         [prep_record; notes_record; prep_record] = l1 ++ r :: l2
         /\ r !! "html_url" = Some (Str (url e))
         /\ r !! "full_name" = Some (name e)
         /\ passes (lower "Acme") (interview_keywords None).1 r
         /\ forall r', r' ∈ l1 ->
               r' !! "html_url" = Some (Str (url e)) ->
               ~ passes (lower "Acme") (interview_keywords None).1 r'.
Proof.
  split; [vm_compute; reflexivity|].
  apply (dedup_first_passing "Acme" None 8 [prep_record; notes_record; prep_record]).
  vm_compute; reflexivity.
Defined.

(** ** Role priority *)

Lemma if_role_supplied {A : Type} (job_role : option string) (yes : string -> A) (no : A) :
  role_supplied job_role = true ->
  exists s, job_role = Some s /\ if_role job_role yes no = yes s.
Proof.
  unfold role_supplied, if_role. destruct job_role as [s|]; [|discriminate].
  destruct (truthy s && truthy (strip s)); [|discriminate].
  intros _. now exists s.
Qed.

Lemma if_role_not_supplied {A : Type} (job_role : option string) (yes : string -> A) (no : A) :
  role_supplied job_role = false -> if_role job_role yes no = no.
Proof.
  unfold role_supplied, if_role. destruct job_role as [s|]; [|reflexivity].
  now destruct (truthy s && truthy (strip s)).
Qed.

Lemma filter_negb_negb {A : Type} (p : A -> bool) (l : list A) :
  List.filter (fun x => negb (negb (p x))) l = List.filter p l.
Proof.
  induction l as [|x l IH]; simpl; [reflexivity|].
  rewrite IH. now destruct (p x).
Qed.

Lemma prioritize_supplied (job_role : option string) (l : list candidate) :
  role_supplied job_role = true ->
  prioritize job_role l
  = List.filter role_specific l ++ List.filter (fun c => negb (role_specific c)) l.
Proof.
  intros Hrole. unfold prioritize.
  destruct (if_role_supplied job_role
              (fun _ => sort_by (fun x => negb (role_specific x)) l) l Hrole)
    as (s & _ & ->).
  now rewrite sort_by_partition, filter_negb_negb.
Qed.

Lemma filter_all_false {A : Type} (p : A -> bool) (l : list A) :
  (forall x, x ∈ l -> p x = false) ->
  List.filter p l = [] /\ List.filter (fun x => negb (p x)) l = l.
Proof.
  induction l as [|x l IH]; intros H; simpl; [now split|].
  rewrite (H x) by left. simpl.
  destruct IH as [-> ->]; [intros y Hy; apply H; now right|now split].
Qed.

(** Claim C4. The list the role-priority step leaves is the accepted entries
    with [role_specific] true, in their order, followed by those with
    [role_specific] false, in their order: for the accepted list of any
    input and any role, and for any list at all when the role guard holds;
    so entries A (false), B (true), C (false), D (true) become B, D, A, C.
    Without a job role the step leaves every list as it is. *)
Theorem role_priority_stable :
  (forall company job_role max_results all_results acc,
      (accepted company job_role max_results all_results).1 = Ok acc ->
      prioritize (accepted company job_role max_results all_results).2 acc
      = List.filter role_specific acc
        ++ List.filter (fun c => negb (role_specific c)) acc)
  /\ (forall job_role l,
        role_supplied job_role = true ->
        prioritize job_role l
        = List.filter role_specific l
          ++ List.filter (fun c => negb (role_specific c)) l)
  /\ (forall job_role a b c d ua ub uc ud,
        role_supplied job_role = true ->
        prioritize job_role
          [ Candidate a ua false; Candidate b ub true;
            Candidate c uc false; Candidate d ud true ]
        = [ Candidate b ub true; Candidate d ud true;
            Candidate a ua false; Candidate c uc false ])
  /\ (forall l, prioritize None l = l).
Proof.
  split; [|split; [|split]].
  - intros company job_role max_results all_results acc Hacc.
    destruct (role_supplied (accepted company job_role max_results all_results).2)
      eqn:Hrole; [now apply prioritize_supplied|].
    unfold prioritize. rewrite if_role_not_supplied by assumption.
    destruct (filter_all_false role_specific acc) as [-> ->]; [|reflexivity].
    intros c Hc. apply accepted_origin in Hacc as [_ Horigin].
    destruct (Horigin c Hc) as (_ & _ & _ & _ & (h & _ & _ & _ & _ & _ & _ & ->) & _).
    unfold is_role_specific. apply if_role_not_supplied.
    now rewrite accepted_scan in Hrole.
  - intros. now apply prioritize_supplied.
  - intros. now rewrite prioritize_supplied.
  - reflexivity.
Qed.

Lemma role_priority_stable_witness :
  role_supplied (Some "Backend") = true
  /\ prioritize (Some "Backend")
       [ Candidate (Str "o/a") "ua" false; Candidate (Str "o/b") "ub" true;
         Candidate (Str "o/c") "uc" false; Candidate (Str "o/d") "ud" true ]
     = [ Candidate (Str "o/b") "ub" true; Candidate (Str "o/d") "ud" true;
         Candidate (Str "o/a") "ua" false; Candidate (Str "o/c") "uc" false ].
Proof.
  split; [reflexivity|].
  apply (proj1 (proj2 (proj2 role_priority_stable))). reflexivity.
Defined.

(** ** The cap and the early stop *)

(** Claim C5, as stated, fails for the cap 0: the accepted count is
    [2 * 0] before any record is looked at, yet the loop is entered. The
    check of lines 298-300 stands at the end of the body, so the record
    with the null name is examined and raises, and a record that passes
    both gates is accepted. *)
Lemma zero_cap_still_examines :
  (accepted "Acme" None 0 []).1 = Ok []
  /\ relevance_filter "Acme" None 0 stop_rest = Raise AttributeError
  /\ (accepted "Acme" None 0 stop_prefix).1
     = Ok [Candidate (Str "a/one") "https://github.com/a/one" false].
Proof. repeat split; vm_compute; reflexivity. Qed.

(** The next record, when it passes both gates with a URL that no accepted
    entry has, is accepted as long as fewer than [2 * max_results] entries
    are accepted. *)
Lemma accepted_below_threshold
    (company : string) (job_role : option string) (max_results : nat)
    (l1 : list repo) (acc : list candidate) (r : repo) (u h : string) (v : value) :
  (accepted company job_role max_results l1).1 = Ok acc ->
  length acc < max_results * 2 ->
  r !! "html_url" = Some (Str u) ->
  u <> "" ->
  u ∉ cand_url <$> acc ->
  content r = Ok h ->
  (lower company isin h) = true ->
  any (fun keyword => keyword isin h) (interview_keywords job_role).1 = true ->
  r !! "full_name" = Some v ->
  (accepted company job_role max_results (l1 ++ [r])).1
  = Ok (acc ++ [Candidate v u (is_role_specific (interview_keywords job_role).2 h)]).
Proof.
  intros Hacc Hlt Hu Hne Hnew Hc Hcomp Hkw Hf.
  rewrite accepted_scan in *. simpl in *.
  destruct (scan _ _ _ _ l1 _) as [st1|e] eqn:Hs; simpl in Hacc; [|discriminate].
  injection Hacc as <-.
  rewrite (scan_continue _ _ _ _ l1 [r] _ st1 Hs Hlt).
  assert (fresh_url r st1 u) as Hfresh.
  { split; [assumption|]. split; [assumption|].
    apply scan_new in Hs as (new & Hcr & Hseen & _). simpl in Hcr, Hseen.
    rewrite Hseen, <- Hcr. set_solver. }
  pose proof (accepted_record (lower company) (interview_keywords job_role).2
                (interview_keywords job_role).1 max_results r st1 u h v
                Hfresh Hc Hcomp Hkw Hf) as Hit.
  apply loop_body_iteration in Hit. simpl. rewrite Hit. simpl.
  now destruct (enough _ _).
Qed.

(** Claim C5, amended. For every cap the filter returns the first
    [max_results] entries of the accepted list after the role-priority
    step, so at most [max_results] entries, and none when nothing was
    accepted. For a cap of one or more the scan stops exactly when the
    accepted count reaches [2 * max_results]: while the count is below it
    the rest of the input is scanned from the state reached, and the next
    record that passes both gates with a new URL is accepted; once the count
    is there the records behind change nothing, whatever they are; and the
    count never passes it. *)
Theorem result_cap_and_early_stop
    (company : string) (job_role : option string) (max_results : nat) :
  (forall all_results res,
      relevance_filter company job_role max_results all_results = Ok res ->
      exists acc,
        (accepted company job_role max_results all_results).1 = Ok acc
        /\ res = take max_results
                   (drop_role_specific
                      <$> prioritize
                            (accepted company job_role max_results all_results).2 acc)
        /\ length res <= max_results
        /\ (acc = [] -> res = []))
  /\ (0 < max_results ->
      forall l1 l2 acc,
        (accepted company job_role max_results l1).1 = Ok acc ->
        max_results * 2 <= length acc ->
        accepted company job_role max_results (l1 ++ l2)
          = accepted company job_role max_results l1
        /\ relevance_filter company job_role max_results (l1 ++ l2)
           = relevance_filter company job_role max_results l1)
  /\ (forall l1 l2 st1,
        scan (lower company) (interview_keywords job_role).2
          (interview_keywords job_role).1 max_results l1
          {| seen_urls := ∅; company_resources := [] |} = Ok st1 ->
        length (company_resources st1) < max_results * 2 ->
        scan (lower company) (interview_keywords job_role).2
          (interview_keywords job_role).1 max_results (l1 ++ l2)
          {| seen_urls := ∅; company_resources := [] |}
        = scan (lower company) (interview_keywords job_role).2
            (interview_keywords job_role).1 max_results l2 st1)
  /\ (forall l1 acc r u h v,
        (accepted company job_role max_results l1).1 = Ok acc ->
        length acc < max_results * 2 ->
        r !! "html_url" = Some (Str u) ->
        u <> "" ->
        u ∉ cand_url <$> acc ->
        content r = Ok h ->
        (lower company isin h) = true ->
        any (fun keyword => keyword isin h) (interview_keywords job_role).1 = true ->
        r !! "full_name" = Some v ->
        (accepted company job_role max_results (l1 ++ [r])).1
        = Ok (acc ++ [Candidate v u
                        (is_role_specific (interview_keywords job_role).2 h)]))
  /\ (0 < max_results ->
      forall all_results acc,
        (accepted company job_role max_results all_results).1 = Ok acc ->
        length acc <= max_results * 2).
Proof.
  split; [|split; [|split; [|split]]].
  - intros all_results res. rewrite relevance_filter_phases.
    destruct ((accepted company job_role max_results all_results).1) as [acc|e];
      simpl; [|discriminate].
    intros [= <-]. exists acc. split; [reflexivity|]. split; [reflexivity|].
    split; [rewrite length_take; lia|].
    intros ->. rewrite prioritize_nil. simpl. apply take_nil.
  - intros Hpos l1 l2 acc Hacc Hge.
    assert (accepted company job_role max_results (l1 ++ l2)
            = accepted company job_role max_results l1) as Heq.
    { rewrite !accepted_scan in *. simpl in Hacc.
      destruct (scan _ _ _ _ l1 _) as [st|e] eqn:Hs; simpl in Hacc; [|discriminate].
      injection Hacc as <-.
      erewrite scan_stop; [reflexivity|exact Hs| |exact Hge].
      simpl. lia. }
    split; [assumption|]. now rewrite !relevance_filter_phases, Heq.
  - intros l1 l2 st1 Hs Hlt. now apply scan_continue.
  - intros l1 acc r u h v. apply accepted_below_threshold.
  - intros Hpos all_results acc. rewrite accepted_scan. simpl.
    destruct (scan _ _ _ _ _ _) as [st|e] eqn:Hs; simpl; [|discriminate].
    intros [= <-]. eapply scan_bound; [|exact Hs]. simpl. lia.
Qed.

Lemma result_cap_and_early_stop_witness :
  0 < 1
  /\ (accepted "Acme" None 1 stop_prefix).1
     = Ok [ Candidate (Str "a/one") "https://github.com/a/one" false;
            Candidate (Str "b/two") "https://github.com/b/two" false ]
  /\ relevance_filter "Acme" None 1 (stop_prefix ++ stop_rest)
     = relevance_filter "Acme" None 1 stop_prefix.
Proof.
  split; [lia|]. split; [vm_compute; reflexivity|].
  apply (proj1 (proj2 (result_cap_and_early_stop "Acme" None 1))
           ltac:(lia) stop_prefix stop_rest
           [ Candidate (Str "a/one") "https://github.com/a/one" false;
             Candidate (Str "b/two") "https://github.com/b/two" false ]);
    [vm_compute; reflexivity|simpl; lia].
Defined.

Example early_stop_skips_bad_record :
  relevance_filter "Acme" None 1 (stop_prefix ++ stop_rest)
    = Ok [Resource (Str "a/one") "https://github.com/a/one"]
  /\ relevance_filter "Acme" None 2 (stop_prefix ++ stop_rest) = Raise AttributeError.
Proof. split; vm_compute; reflexivity. Qed.

(** With the cap 8 all of sixteen passing records are accepted: the loop
    does not stop at nine. *)
Example sixteen_accepted_at_cap_eight :
  (accepted "Acme" None 8 (filler <$> letters)).1 = Ok (filler_candidate <$> letters)
  /\ length (filler_candidate <$> letters) = 16.
Proof. split; vm_compute; reflexivity. Qed.

(** ** A record without a description *)

Section MissingDescription.

Context (company_lower : string) (job_role : option string)
        (keywords : list string) (max_results : nat).

Lemma content_without_description (r : repo) :
  r !! "description" = None \/ r !! "description" = Some PyNone ->
  content r = content (<["description" := Str ""]> r).
Proof.
  intros H. unfold content.
  rewrite lookup_insert_eq, lookup_insert_ne by discriminate.
  now destruct H as [-> | ->].
Qed.

Lemma content_name_only (r : repo) (n : string) :
  r !! "description" = None \/ r !! "description" = Some PyNone ->
  r !! "name" = Some (Str n) ->
  content r = Ok (lower n +:+ " ").
Proof. intros H Hn. unfold content. rewrite Hn. now destruct H as [-> | ->]. Qed.

(** The only exceptions of an iteration: a null name, or no [full_name]. *)
Lemma loop_body_raises (r : repo) (st : scan_state) (e : exn) :
  loop_body company_lower job_role keywords max_results r st = Raise e ->
  r !! "name" = Some PyNone \/ r !! "full_name" = None.
Proof.
  unfold loop_body.
  destruct (r !! "html_url") as [[|u]|]; try discriminate.
  destruct (negb (truthy u) || bool_decide (u ∈ seen_urls st)); [discriminate|].
  unfold content. destruct (r !! "name") as [[|n]|]; simpl; [now left| |].
  all: destruct (negb _); [discriminate|].
  all: destruct (any _ _); simpl;
    [|destruct (_ <=? _); discriminate].
  all: destruct (r !! "full_name"); simpl; [|now right].
  all: destruct (_ <=? _); discriminate.
Qed.

End MissingDescription.

(** Claim C8. A record whose description is not there, or is null, is
    handled as the same record with the empty description: its haystack is
    the lowered name followed by the separating space, the iteration on it
    raises nothing as long as the name is not null and [full_name] is
    there, and it is accepted when that haystack passes both gates. *)
Theorem missing_description_evaluated
    (company_lower : string) (job_role : option string)
    (keywords : list string) (max_results : nat) (r : repo) (st : scan_state) :
  r !! "description" = None \/ r !! "description" = Some PyNone ->
  content r = content (<["description" := Str ""]> r)
  /\ loop_body company_lower job_role keywords max_results r st
     = loop_body company_lower job_role keywords max_results
         (<["description" := Str ""]> r) st
  /\ (forall n, r !! "name" = Some (Str n) -> content r = Ok (lower n +:+ " "))
  /\ (r !! "name" <> Some PyNone -> r !! "full_name" <> None ->
      exists out,
        loop_body company_lower job_role keywords max_results r st = Ok out)
  /\ (forall u n v,
        fresh_url r st u ->
        r !! "name" = Some (Str n) ->
        r !! "full_name" = Some v ->
        (company_lower isin lower n +:+ " ") = true ->
        any (fun keyword => keyword isin lower n +:+ " ") keywords = true ->
        exists f,
          loop_body company_lower job_role keywords max_results r st
          = Ok (f, accept job_role u v (lower n +:+ " ") st)).
Proof.
  intros Hd. split; [now apply content_without_description|].
  split; [|split; [|split]].
  - unfold loop_body.
    rewrite <- (content_without_description r Hd).
    now rewrite !lookup_insert_ne by discriminate.
  - intros n Hn. now apply content_name_only.
  - intros Hname Hfull.
    destruct (loop_body company_lower job_role keywords max_results r st)
      as [out|e] eqn:Hb; [now exists out|].
    apply loop_body_raises in Hb as [Hb|Hb]; contradiction.
  - intros u n v Hfresh Hn Hf Hcomp Hkw. eexists.
    apply loop_body_iteration.
    eapply accepted_record; try eassumption. now apply content_name_only.
Qed.

Lemma missing_description_evaluated_witness :
  bare_record !! "description" = None
  /\ content bare_record = Ok "acme-leetcode "
  /\ relevance_filter "Acme" None 8 [bare_record]
     = Ok [Resource (Str "a/acme") "https://github.com/a/acme"].
Proof.
  split; [vm_compute; reflexivity|].
  split; [|vm_compute; reflexivity].
  apply (proj1 (proj2 (proj2
           (missing_description_evaluated "acme" None base_keywords 8 bare_record
              {| seen_urls := ∅; company_resources := [] |}
              (or_introl eq_refl)))) "Acme-LeetCode").
  vm_compute; reflexivity.
Defined.

(** ** A rejected record does not mark its URL *)

Lemma prioritize_singleton (job_role : option string) (c : candidate) :
  prioritize job_role [c] = [c].
Proof.
  unfold prioritize, if_role. destruct job_role as [s|]; [|reflexivity].
  now destruct (truthy s && truthy (strip s)).
Qed.

Lemma relevance_filter_remove_rejected
    (company : string) (job_role : option string) (max_results : nat)
    (l1 : list repo) (r : repo) (l2 : list repo) (h : string) :
  0 < max_results ->
  content r = Ok h ->
  (lower company isin h) = false
    \/ any (fun keyword => keyword isin h) (interview_keywords job_role).1 = false ->
  relevance_filter company job_role max_results (l1 ++ r :: l2)
  = relevance_filter company job_role max_results (l1 ++ l2).
Proof.
  intros Hpos Hc Hgate.
  assert (accepted company job_role max_results (l1 ++ r :: l2)
          = accepted company job_role max_results (l1 ++ l2)) as Heq.
  { rewrite !accepted_scan.
    rewrite (scan_remove_rejected _ _ _ _ l1 r l2 _ h Hc Hgate); [reflexivity|].
    simpl. lia. }
  now rewrite !relevance_filter_phases, Heq.
Qed.

Lemma relevance_filter_single_accepted
    (company : string) (job_role : option string) (max_results : nat)
    (r : repo) (u h : string) (v : value) :
  0 < max_results ->
  r !! "html_url" = Some (Str u) ->
  u <> "" ->
  content r = Ok h ->
  (lower company isin h) = true ->
  any (fun keyword => keyword isin h) (interview_keywords job_role).1 = true ->
  r !! "full_name" = Some v ->
  relevance_filter company job_role max_results [r] = Ok [Resource v u].
Proof.
  intros Hpos Hu Hne Hc Hcomp Hkw Hf.
  rewrite relevance_filter_phases, accepted_scan. simpl.
  assert (fresh_url r {| seen_urls := ∅; company_resources := [] |} u) as Hfresh
    by (repeat split; [assumption|assumption|set_solver]).
  pose proof (accepted_record (lower company) (interview_keywords job_role).2
                (interview_keywords job_role).1 max_results r _ u h v
                Hfresh Hc Hcomp Hkw Hf) as Hit.
  apply loop_body_iteration in Hit. rewrite Hit. simpl.
  destruct (enough _ _); simpl; rewrite prioritize_singleton; simpl;
    (destruct max_results; [lia|simpl; now rewrite take_nil]).
Qed.

(** Claim C9, as stated, fails: the first record below has the URL of the
    last one and is rejected by the company-name gate, the last one passes
    both gates, and it is not accepted, because the sixteen records between
    them are accepted and the loop is left before it is reached. *)
Lemma later_record_behind_early_stop :
  notes_record !! "html_url" = prep_record !! "html_url"
  /\ content notes_record = Ok "notes study notes"
  /\ (lower "Acme" isin "notes study notes") = false
  /\ content prep_record = Ok "acme-prep acme interview questions"
  /\ (lower "Acme" isin "acme-prep acme interview questions") = true
  /\ any (fun keyword => keyword isin "acme-prep acme interview questions")
       (interview_keywords None).1 = true
  /\ accepted "Acme" None 8 (notes_record :: (filler <$> letters) ++ [prep_record])
     = (Ok (filler_candidate <$> letters), None)
  /\ relevance_filter "Acme" None 8
       (notes_record :: (filler <$> letters) ++ [prep_record])
     = Ok (drop_role_specific <$> take 8 (filler_candidate <$> letters)).
Proof. repeat split; vm_compute; reflexivity. Qed.

(** Claim C9, amended. An iteration changes the set of seen URLs only by
    accepting its record. A record rejected by the company-name gate or by
    the keyword gate, met while fewer than [2 * max_results] entries are
    accepted, leaves the state as it is and the loop running, so a record
    of the same URL that passes both gates and comes next is accepted; with
    a positive cap the filter gives on an input what it gives on the input
    without the rejected record, and on the two records alone it returns the
    second. *)
Theorem rejected_url_not_marked_seen :
  (forall company_lower job_role keywords max_results r st f st',
      loop_body company_lower job_role keywords max_results r st = Ok (f, st') ->
      seen_urls st' <> seen_urls st ->
      exists u h v,
        fresh_url r st u /\ content r = Ok h
        /\ (company_lower isin h) = true
        /\ any (fun keyword => keyword isin h) keywords = true
        /\ r !! "full_name" = Some v
        /\ st' = accept job_role u v h st)
  /\ (forall company_lower job_role keywords max_results r1 r2 st u h1 h2 v,
        length (company_resources st) < max_results * 2 ->
        fresh_url r2 st u ->
        content r1 = Ok h1 ->
        (company_lower isin h1) = false
          \/ any (fun keyword => keyword isin h1) keywords = false ->
        content r2 = Ok h2 ->
        (company_lower isin h2) = true ->
        any (fun keyword => keyword isin h2) keywords = true ->
        r2 !! "full_name" = Some v ->
        loop_body company_lower job_role keywords max_results r1 st = Ok (Next, st)
        /\ exists f,
             loop_body company_lower job_role keywords max_results r2 st
             = Ok (f, accept job_role u v h2 st))
  /\ (forall company job_role max_results l1 r l2 h,
        0 < max_results ->
        content r = Ok h ->
        (lower company isin h) = false
          \/ any (fun keyword => keyword isin h) (interview_keywords job_role).1 = false ->
        relevance_filter company job_role max_results (l1 ++ r :: l2)
        = relevance_filter company job_role max_results (l1 ++ l2))
  /\ (forall company job_role max_results r1 r2 u h1 h2 v,
        0 < max_results ->
        r1 !! "html_url" = Some (Str u) ->
        r2 !! "html_url" = Some (Str u) ->
        u <> "" ->
        content r1 = Ok h1 ->
        (lower company isin h1) = false
          \/ any (fun keyword => keyword isin h1) (interview_keywords job_role).1 = false ->
        content r2 = Ok h2 ->
        (lower company isin h2) = true ->
        any (fun keyword => keyword isin h2) (interview_keywords job_role).1 = true ->
        r2 !! "full_name" = Some v ->
        relevance_filter company job_role max_results [r1; r2] = Ok [Resource v u]).
Proof.
  split; [|split; [|split]].
  - intros company_lower job_role keywords max_results r st f st' Hb Hseen.
    apply loop_body_iteration, iteration_effect in Hb as [[-> _]|Hb];
      [congruence|assumption].
  - intros company_lower job_role keywords max_results r1 r2 st u h1 h2 v
           Hlt Hfresh Hc1 Hgate Hc2 Hcomp Hkw Hf.
    split; [now apply loop_body_rejected with h1|].
    eexists. apply loop_body_iteration.
    eapply accepted_record; eassumption.
  - intros. now apply relevance_filter_remove_rejected with h.
  - intros company job_role max_results r1 r2 u h1 h2 v Hpos _ Hu2 Hne Hc1 Hgate
           Hc2 Hcomp Hkw Hf.
    change [r1; r2] with ([] ++ r1 :: [r2]).
    rewrite (relevance_filter_remove_rejected company job_role max_results
               [] r1 [r2] h1 Hpos Hc1 Hgate). simpl.
    now apply relevance_filter_single_accepted with h2.
Qed.

Lemma rejected_url_not_marked_seen_witness :
  content notes_record = Ok "notes study notes"
  /\ content prep_record = Ok "acme-prep acme interview questions"
  /\ relevance_filter "Acme" None 8 [notes_record; prep_record]
     = Ok [Resource (Str "bob/prep") "https://github.com/acme/prep"].
Proof.
  split; [vm_compute; reflexivity|]. split; [vm_compute; reflexivity|].
  apply (proj2 (proj2 (proj2 rejected_url_not_marked_seen)) "Acme" None 8
           notes_record prep_record "https://github.com/acme/prep"
           "notes study notes" "acme-prep acme interview questions" (Str "bob/prep"));
    try (vm_compute; reflexivity); try discriminate; try lia.
  left. vm_compute; reflexivity.
Defined.

(** ** A role of whitespace only *)

Section Whitespace.

Context (ws : string) (Hws : all_space ws = true).

Lemma build_queries_whitespace company :
  build_queries company (Some ws) = (base_queries company, Some ws).
Proof. unfold build_queries. now apply if_role_all_space. Qed.

Lemma interview_keywords_whitespace :
  interview_keywords (Some ws) = (base_keywords, Some ws).
Proof. unfold interview_keywords. now apply if_role_all_space. Qed.

Lemma is_role_specific_whitespace h : is_role_specific (Some ws) h = false.
Proof. unfold is_role_specific. now apply if_role_all_space. Qed.

Lemma prioritize_whitespace l : prioritize (Some ws) l = l.
Proof. unfold prioritize. now apply if_role_all_space. Qed.

Lemma loop_body_whitespace company_lower keywords max_results r st :
  loop_body company_lower (Some ws) keywords max_results r st
  = loop_body company_lower None keywords max_results r st.
Proof.
  unfold loop_body.
  destruct (r !! "html_url") as [[|u]|]; try reflexivity.
  destruct (negb (truthy u) || bool_decide (u ∈ seen_urls st)); [reflexivity|].
  destruct (content r) as [h|e]; simpl; [|reflexivity].
  now rewrite (strip_all_space ws Hws), andb_false_r.
Qed.

Lemma scan_whitespace company_lower keywords max_results l st :
  scan company_lower (Some ws) keywords max_results l st
  = scan company_lower None keywords max_results l st.
Proof.
  revert st. induction l as [|r l IH]; intros st; simpl; [reflexivity|].
  rewrite loop_body_whitespace.
  destruct (loop_body company_lower None keywords max_results r st)
    as [[[] st1]|e]; simpl; [apply IH|reflexivity|reflexivity].
Qed.

Lemma relevance_filter_whitespace company max_results l :
  relevance_filter company (Some ws) max_results l
  = relevance_filter company None max_results l.
Proof.
  rewrite !relevance_filter_phases, !accepted_scan.
  rewrite interview_keywords_whitespace. simpl.
  rewrite scan_whitespace.
  destruct (scan _ _ _ _ _ _) as [st|e]; simpl; [|reflexivity].
  now rewrite (strip_all_space ws Hws), andb_false_r.
Qed.

End Whitespace.

(** Claim C10. For a job role made of whitespace only, the role queries are
    not built, the keyword list is the fixed one, no entry is role specific,
    the role-priority step leaves the list as it is, and
    [get_github_resources] gives what it gives without a job role. *)
Theorem whitespace_role_is_no_role
    (search : string -> option (list repo)) (company ws : string)
    (max_results : nat) :
  all_space ws = true ->
  build_queries company (Some ws) = (base_queries company, Some ws)
  /\ (interview_keywords (Some ws)).1 = base_keywords
  /\ (forall h, is_role_specific (Some ws) h = false)
  /\ (forall l, prioritize (Some ws) l = l)
  /\ get_github_resources search company (Some ws) max_results
     = get_github_resources search company None max_results.
Proof.
  intros Hws.
  split; [now apply build_queries_whitespace|].
  split; [now rewrite interview_keywords_whitespace|].
  split; [intros h; now apply is_role_specific_whitespace|].
  split; [intros l; now apply prioritize_whitespace|].
  unfold get_github_resources. rewrite build_queries_whitespace by assumption.
  simpl. now apply relevance_filter_whitespace.
Qed.

Lemma whitespace_role_is_no_role_witness :
  all_space blank_role = true
  /\ get_github_resources (fun _ => Some sample_results) "Acme" (Some blank_role) 8
     = get_github_resources (fun _ => Some sample_results) "Acme" None 8.
Proof.
  split; [reflexivity|].
  apply (whitespace_role_is_no_role (fun _ => Some sample_results) "Acme" blank_role 8).
  reflexivity.
Defined.

(** ** The fallback table *)

(** Claim C6, as stated, fails in its second half: the role table has a
    [frontend] key, so for the company facebook and the role frontend the
    two frontend entries come in front of the three company entries. *)
Lemma frontend_role_entries_prepended :
  get_improved_fallback_resources "facebook" (Some "frontend")
    = frontend_entries ++ meta_facebook_entries
  /\ length (get_improved_fallback_resources "facebook" (Some "frontend")) = 5
  /\ get_improved_fallback_resources "facebook" (Some "frontend")
     <> meta_facebook_entries.
Proof.
  split; [vm_compute; reflexivity|]. split; [vm_compute; reflexivity|].
  vm_compute. discriminate.
Qed.

(** Claim C6, amended. For a company name that is Facebook in any letter
    case, the fallback table gives the three Meta/Facebook entries when
    there is no role (none, or the empty text), and the two frontend entries
    followed by the three Meta/Facebook entries for the role frontend. *)
Theorem fallback_facebook (company : string) :
  lower company = "facebook" ->
  get_improved_fallback_resources company None = meta_facebook_entries
  /\ get_improved_fallback_resources company (Some "") = meta_facebook_entries
  /\ get_improved_fallback_resources company (Some "frontend")
     = frontend_entries ++ meta_facebook_entries.
Proof.
  intros H. unfold get_improved_fallback_resources. rewrite H.
  repeat split; vm_compute; reflexivity.
Qed.

Lemma fallback_facebook_witness :
  lower "FaceBook" = "facebook"
  /\ get_improved_fallback_resources "FaceBook" None = meta_facebook_entries
  /\ get_improved_fallback_resources "FaceBook" (Some "") = meta_facebook_entries
  /\ get_improved_fallback_resources "FaceBook" (Some "frontend")
     = frontend_entries ++ meta_facebook_entries.
Proof.
  split; [reflexivity|]. apply (fallback_facebook "FaceBook"). reflexivity.
Defined.

(** ** The uncertainty check of the overview *)

(** The three phrases that start with a capital I are compared with the
    lowered overview, so they are never found: only the last phrase
    decides. *)
Lemma qualify_decided_by_last_phrase (company overview : string) :
  qualify company overview
  = if "insufficient information" isin lower overview
    then "Based on available information about '" +:+ company +:+ "':"
         +:+ newline +:+ newline +:+ overview
    else overview.
Proof.
  unfold qualify, uncertainty_phrases, any. simpl existsb.
  rewrite !capital_I_not_in_lower. simpl.
  now rewrite orb_false_r.
Qed.

(** Claim C7 does not hold of the code: an overview that contains the
    phrase I cannot, and so an uncertainty phrase of the list, is returned
    as it is, without the qualifying sentence. *)
Theorem uncertain_overview_not_qualified :
  ("I cannot" isin "I cannot provide details about this company.") = true
  /\ generate_company_overview unsure_model "Acme" None
     = "I cannot provide details about this company.".
Proof. split; vm_compute; reflexivity. Qed.

(** * Further properties of the code *)

(** ** Substrings of built strings *)

Lemma prefix_app (n s : string) : String.prefix n (n +:+ s) = true.
Proof.
  induction n as [|c n IH]; simpl; [now destruct s|].
  destruct (ascii_dec c c); [assumption|congruence].
Qed.

Lemma prefix_refl (n : string) : String.prefix n n = true.
Proof.
  induction n as [|c n IH]; simpl; [reflexivity|].
  destruct (ascii_dec c c); [assumption|congruence].
Qed.

Lemma contains_prefix (hay needle : string) :
  String.prefix needle hay = true -> (needle isin hay) = true.
Proof. intros H. destruct hay; unfold contains; fold contains; now rewrite H. Qed.

Lemma contains_refl (n : string) : (n isin n) = true.
Proof. apply contains_prefix, prefix_refl. Qed.

Lemma contains_app_here (n s : string) : (n isin n +:+ s) = true.
Proof. apply contains_prefix, prefix_app. Qed.

Lemma contains_app_r (p hay needle : string) :
  (needle isin hay) = true -> (needle isin p +:+ hay) = true.
Proof.
  intros H. induction p as [|c p IH]; [exact H|].
  change (String c p +:+ hay) with (String c (p +:+ hay)).
  unfold contains; fold contains.
  destruct (String.prefix needle (String c (p +:+ hay))); [reflexivity|exact IH].
Qed.

(** A needle that is not empty is in no empty text. *)
Lemma contains_empty_hay (needle : string) :
  (needle isin "") = true -> needle = "".
Proof. destruct needle; [reflexivity|discriminate]. Qed.

Ltac find_substring :=
  first [ apply contains_app_here
        | apply contains_refl
        | apply contains_app_r; find_substring ].

(** ** The queries and the requests *)

Lemma fetch_app (search : string -> option (list repo)) (q1 q2 : list string) :
  fetch search (q1 ++ q2) = fetch search q1 ++ fetch search q2.
Proof.
  induction q1 as [|q q1 IH]; simpl; [reflexivity|].
  destruct (search q); [|assumption].
  now rewrite IH, app_assoc.
Qed.

Lemma fetch_elem (search : string -> option (list repo)) (queries : list string) (r : repo) :
  r ∈ fetch search queries
  <-> exists query items,
        query ∈ queries /\ search query = Some items /\ r ∈ items.
Proof.
  induction queries as [|q queries IH]; simpl.
  - split; [inversion 1|]. intros (? & ? & Hq & _). inversion Hq.
  - destruct (search q) as [items|] eqn:Hs.
    + rewrite elem_of_app, IH. split.
      * intros [Hr|(query & items' & Hq & Hs' & Hr)].
        -- exists q, items. split; [left|now split].
        -- exists query, items'. split; [now right|now split].
      * intros (query & items' & [->|Hq]%elem_of_cons & Hs' & Hr).
        -- left. congruence.
        -- right. now exists query, items'.
    + rewrite IH. split.
      * intros (query & items' & Hq & Hs' & Hr).
        exists query, items'. split; [now right|now split].
      * intros (query & items' & [->|Hq]%elem_of_cons & Hs' & Hr); [congruence|].
        now exists query, items'.
Qed.

Lemma fetch_nothing (search : string -> option (list repo)) (queries : list string) :
  (forall query, query ∈ queries -> search query = None \/ search query = Some []) ->
  fetch search queries = [].
Proof.
  induction queries as [|q queries IH]; intros H; simpl; [reflexivity|].
  destruct (H q) as [-> | ->]; [left| |]; apply IH; intros; apply H; now right.
Qed.

(** The records collected by the requests are those of the answered
    queries: a record is collected exactly when a query of the list was
    answered with items that hold it, a failed request adds nothing, and the
    records of a list of queries come before those of the queries behind
    it. *)
Theorem fetch_collects_answered_queries
    (search : string -> option (list repo)) :
  (forall queries r,
      r ∈ fetch search queries
      <-> exists query items,
            query ∈ queries /\ search query = Some items /\ r ∈ items)
  /\ (forall q1 q2,
        fetch search (q1 ++ q2) = fetch search q1 ++ fetch search q2).
Proof. split; [apply fetch_elem|apply fetch_app]. Qed.

Lemma build_queries_list (company : string) (job_role : option string) :
  (build_queries company job_role).1
  = if_role job_role (fun s => role_queries company (lower (strip s))) []
    ++ base_queries company.
Proof.
  unfold build_queries, if_role. destruct job_role as [s|]; [|reflexivity].
  now destruct (truthy s && truthy (strip s)).
Qed.

Lemma base_queries_mention (company query : string) :
  query ∈ base_queries company -> (company isin query) = true.
Proof.
  unfold base_queries. intros H.
  repeat (apply elem_of_cons in H as [->|H]; [find_substring|]).
  inversion H.
Qed.

Lemma role_queries_mention (company job_role query : string) :
  query ∈ role_queries company job_role ->
  (company isin query) = true /\ (job_role isin query) = true.
Proof.
  unfold role_queries. intros H.
  repeat (apply elem_of_cons in H as [->|H]; [split; find_substring|]).
  inversion H.
Qed.

(** Every query sent to the search holds the company name as it was
    typed, and with a job role the four role queries, which also hold the
    stripped and lowered role, come before the five base queries. *)
Theorem queries_mention_company (company : string) (job_role : option string) :
  (build_queries company job_role).1
  = if_role job_role (fun s => role_queries company (lower (strip s))) []
    ++ base_queries company
  /\ (forall query,
        query ∈ (build_queries company job_role).1 -> (company isin query) = true)
  /\ (forall s query,
        query ∈ role_queries company (lower (strip s)) ->
        (lower (strip s) isin query) = true)
  /\ length (build_queries company job_role).1
     = if role_supplied job_role then 9 else 5.
Proof.
  split; [apply build_queries_list|]. split; [|split].
  - intros query. rewrite build_queries_list.
    intros [H|H]%elem_of_app; [|now apply base_queries_mention].
    unfold if_role in H. destruct job_role as [s|]; [|inversion H].
    destruct (truthy s && truthy (strip s)); [|inversion H].
    now apply role_queries_mention in H.
  - intros s query H. now apply role_queries_mention in H.
  - rewrite build_queries_list. unfold role_supplied, if_role.
    destruct job_role as [s|]; [|reflexivity].
    now destruct (truthy s && truthy (strip s)).
Qed.

(** ** The job role is normalised once *)

Lemma lower_char_idem c : lower_char (lower_char c) = lower_char c.
Proof. destruct c as [[] [] [] [] [] [] [] []]; vm_compute; reflexivity. Qed.

Lemma isspace_lower_char c : isspace (lower_char c) = isspace c.
Proof. destruct c as [[] [] [] [] [] [] [] []]; vm_compute; reflexivity. Qed.

Lemma lower_idem s : lower (lower s) = lower s.
Proof. induction s as [|c s IH]; simpl; [reflexivity|]. now rewrite lower_char_idem, IH. Qed.

Lemma is_empty_lower s : is_empty (lower s) = is_empty s.
Proof. now destruct s. Qed.

Lemma truthy_lower s : truthy (lower s) = truthy s.
Proof. unfold truthy. now rewrite is_empty_lower. Qed.

Lemma lstrip_lower s : lstrip (lower s) = lower (lstrip s).
Proof.
  induction s as [|c s IH]; simpl; [reflexivity|].
  rewrite isspace_lower_char. now destruct (isspace c).
Qed.

Lemma rstrip_lower s : rstrip (lower s) = lower (rstrip s).
Proof.
  induction s as [|c s IH]; simpl; [reflexivity|].
  rewrite isspace_lower_char, IH, is_empty_lower.
  now destruct (isspace c && is_empty (rstrip s)).
Qed.

Lemma strip_lower s : strip (lower s) = lower (strip s).
Proof. unfold strip. now rewrite lstrip_lower, rstrip_lower. Qed.

Lemma rstrip_idem s : rstrip (rstrip s) = rstrip s.
Proof.
  induction s as [|c s IH]; simpl; [reflexivity|].
  destruct (isspace c && is_empty (rstrip s)) eqn:E; simpl; [reflexivity|].
  now rewrite IH, E.
Qed.

Lemma lstrip_clean s : starts_clean (lstrip s) = true.
Proof.
  induction s as [|c s IH]; simpl; [reflexivity|].
  destruct (isspace c) eqn:E; [assumption|]. simpl. now rewrite E.
Qed.

Lemma lstrip_of_clean s : starts_clean s = true -> lstrip s = s.
Proof. destruct s as [|c s]; simpl; [reflexivity|]. now intros ->%negb_true_iff. Qed.

Lemma rstrip_clean s : starts_clean s = true -> starts_clean (rstrip s) = true.
Proof.
  destruct s as [|c s]; simpl; [reflexivity|].
  intros H. apply negb_true_iff in H as E. rewrite E. simpl. now rewrite E.
Qed.

Lemma strip_idem s : strip (strip s) = strip s.
Proof.
  unfold strip.
  rewrite (lstrip_of_clean (rstrip (lstrip s))) by apply rstrip_clean, lstrip_clean.
  apply rstrip_idem.
Qed.

Lemma normalise_idem s : lower (strip (lower (strip s))) = lower (strip s).
Proof. now rewrite strip_lower, strip_idem, lower_idem. Qed.

Lemma if_role_normalised {A : Type} (s : string) (yes : string -> A) (no : A) :
  role_supplied (Some s) = true ->
  if_role (Some (lower (strip s))) yes no = yes (lower (strip s)).
Proof.
  unfold role_supplied, if_role.
  destruct (truthy s && truthy (strip s)) eqn:E; [|discriminate].
  apply andb_prop in E as [_ E]. intros _.
  now rewrite strip_lower, strip_idem, !truthy_lower, E.
Qed.

(** For a job role that passes the guard, the role is stripped and lowered
    by the query block, and doing it again for the keywords and lowering it
    again for the role terms changes nothing: the whole function is the
    filter, for the stripped and lowered role, on what the nine queries
    fetch; the keywords are the fixed ones with that role text and its form
    without spaces; and the role terms are the words of that role text. *)
Theorem role_normalised_once
    (search : string -> option (list repo)) (company s : string)
    (max_results : nat) :
  role_supplied (Some s) = true ->
  get_github_resources search company (Some s) max_results
  = relevance_filter company (Some (lower (strip s))) max_results
      (fetch search (role_queries company (lower (strip s)) ++ base_queries company))
  /\ interview_keywords (Some (lower (strip s)))
     = (base_keywords ++ [lower (strip s); remove_spaces (lower (strip s))],
        Some (lower (strip s)))
  /\ (forall h,
        is_role_specific (Some (lower (strip s))) h
        = any (fun role_term => role_term isin h) (split (lower (strip s)))).
Proof.
  intros Hrole. split; [|split].
  - rewrite get_github_resources_filter, build_queries_list.
    destruct (if_role_supplied (Some s)
                (fun s => role_queries company (lower (strip s))) [] Hrole)
      as (s' & [= <-] & ->).
    unfold build_queries.
    destruct (if_role_supplied (Some s)
                (fun s0 => ((role_queries company (lower (strip s0))
                               ++ base_queries company)%list,
                            Some (lower (strip s0))))
                (base_queries company, Some s) Hrole)
      as (s' & [= <-] & ->).
    reflexivity.
  - unfold interview_keywords. rewrite if_role_normalised by assumption.
    now rewrite normalise_idem.
  - intros h. unfold is_role_specific. rewrite if_role_normalised by assumption.
    now rewrite lower_idem.
Qed.

Lemma role_normalised_once_witness :
  role_supplied (Some "  Data Scientist ") = true
  /\ interview_keywords (Some (lower (strip "  Data Scientist ")))
     = (base_keywords ++ ["data scientist"; "datascientist"], Some "data scientist").
Proof.
  split; [reflexivity|].
  apply (role_normalised_once (fun _ => None) "Acme" "  Data Scientist " 8).
  reflexivity.
Defined.

(** ** Exceptions *)

Lemma scan_no_raise company_lower job_role keywords max_results l st :
  (forall r, r ∈ l -> r !! "name" <> Some PyNone /\ r !! "full_name" <> None) ->
  exists st', scan company_lower job_role keywords max_results l st = Ok st'.
Proof.
  revert st. induction l as [|r l IH]; intros st Hwf; simpl; [now exists st|].
  destruct (loop_body company_lower job_role keywords max_results r st)
    as [[[] st1]|e] eqn:Hb; simpl.
  - apply IH. intros r' Hr'. apply Hwf. now right.
  - now exists st1.
  - apply loop_body_raises in Hb. destruct (Hwf r) as [? ?]; [left|].
    destruct Hb; contradiction.
Qed.

(** The filter raises nothing on records that have a [full_name] and no
    null name, whatever else they hold or lack: a URL or a description that
    is not there, null or empty is never an error. And when it raises, a
    record of the input has a null name or no [full_name]. *)
Theorem filter_raises_only_on_malformed_records
    (company : string) (job_role : option string) (max_results : nat)
    (all_results : list repo) :
  ((forall r, r ∈ all_results ->
       r !! "name" <> Some PyNone /\ r !! "full_name" <> None) ->
   exists res, relevance_filter company job_role max_results all_results = Ok res)
  /\ (forall e,
        relevance_filter company job_role max_results all_results = Raise e ->
        exists r, r ∈ all_results
          /\ (r !! "name" = Some PyNone \/ r !! "full_name" = None)).
Proof.
  split.
  - intros Hwf. rewrite relevance_filter_phases, accepted_scan. simpl.
    destruct (scan_no_raise (lower company) (interview_keywords job_role).2
                (interview_keywords job_role).1 max_results all_results
                {| seen_urls := ∅; company_resources := [] |} Hwf) as [st ->].
    simpl. eauto.
  - intros e. rewrite relevance_filter_phases, accepted_scan. simpl.
    generalize {| seen_urls := ∅; company_resources := [] |}.
    induction all_results as [|r l IH]; intros st; simpl; [discriminate|].
    destruct (loop_body _ _ _ _ r st) as [[[] st1]|e'] eqn:Hb; simpl.
    + intros H. destruct (IH st1 H) as (r' & Hr' & Hbad).
      exists r'. split; [now right|assumption].
    + discriminate.
    + intros _. apply loop_body_raises in Hb. exists r. split; [left|assumption].
Qed.

(** ** Records met again *)

Section Repeated.

Context (company_lower : string) (job_role : option string)
        (keywords : list string) (max_results : nat).

Abbreviation body := (loop_body company_lower job_role keywords max_results).
Abbreviation run := (scan company_lower job_role keywords max_results).
Abbreviation run_flow := (scan_flow company_lower job_role keywords max_results).

Lemma scan_app_flow l1 l2 st :
  run (l1 ++ l2) st
  = match run_flow l1 st with
    | Ok (Next, st1) => run l2 st1
    | Ok (Break, st1) => Ok st1
    | Raise e => Raise e
    end.
Proof.
  revert st. induction l1 as [|r l1 IH]; intros st; simpl; [reflexivity|].
  destruct (body r st) as [[[] st1]|e]; simpl; [apply IH|reflexivity|reflexivity].
Qed.

Lemma scan_of_flow l st :
  run l st
  = match run_flow l st with
    | Ok (_, st1) => Ok st1
    | Raise e => Raise e
    end.
Proof.
  rewrite <- (app_nil_r l) at 1. rewrite scan_app_flow.
  now destruct (run_flow l st) as [[[] st1]|e].
Qed.

Lemma loop_body_seen r st u :
  r !! "html_url" = Some (Str u) -> u ∈ seen_urls st -> body r st = Ok (Next, st).
Proof.
  intros Hu Hin. apply loop_body_iteration, skipped_url.
  intros u' Hu'. right. congruence.
Qed.

Lemma loop_body_no_company r st h :
  content r = Ok h -> (company_lower isin h) = false -> body r st = Ok (Next, st).
Proof.
  intros Hc Hcomp. unfold loop_body.
  destruct (r !! "html_url") as [[|u]|]; try reflexivity.
  destruct (negb (truthy u) || bool_decide (u ∈ seen_urls st)); [reflexivity|].
  rewrite Hc. simpl. now rewrite Hcomp.
Qed.

Lemma enough_next_below st :
  enough max_results st = Next ->
  length (company_resources st) < max_results * 2.
Proof.
  unfold enough. destruct (_ <=? _) eqn:E; [discriminate|].
  intros _. now apply Nat.leb_gt in E.
Qed.

Lemma iteration_next_inv r st st1 :
  iteration company_lower job_role keywords max_results r st Next st1 ->
  (st1 = st
   /\ ((forall u, r !! "html_url" = Some (Str u) -> u = "" \/ u ∈ seen_urls st)
       \/ (exists h, content r = Ok h /\ (company_lower isin h) = false)
       \/ (exists h, content r = Ok h
             /\ any (fun keyword => keyword isin h) keywords = false
             /\ length (company_resources st) < max_results * 2)))
  \/ (exists u h v,
        r !! "html_url" = Some (Str u)
        /\ st1 = accept job_role u v h st
        /\ length (company_resources st1) < max_results * 2).
Proof.
  remember Next as f eqn:Hf. intros H.
  destruct H as [Hskip|u h Hfresh Hc Hcomp|u h Hfresh Hc Hcomp Hkw
                |u h v Hfresh Hc Hcomp Hkw Hfull].
  - left. split; [reflexivity|]. now left.
  - left. split; [reflexivity|]. right. left. now exists h.
  - left. split; [reflexivity|]. right. right. exists h.
    split; [assumption|]. split; [assumption|]. now apply enough_next_below.
  - right. exists u, h, v. destruct Hfresh as (Hu & _ & _).
    split; [assumption|]. split; [reflexivity|]. now apply enough_next_below.
Qed.

(** After a run that reached the end of the list, every record of the list
    is passed over: its URL is seen, or missing, or it fails a gate below
    the threshold. *)
Lemma scan_flow_settled l st st' :
  run_flow l st = Ok (Next, st') ->
  (st' = st \/ length (company_resources st') < max_results * 2)
  /\ (forall u, u ∈ seen_urls st -> u ∈ seen_urls st')
  /\ (forall r, r ∈ l -> body r st' = Ok (Next, st')).
Proof.
  revert st. induction l as [|r0 l IH]; intros st; simpl.
  - intros [= <-]. split; [now left|]. split; [trivial|]. intros r Hr. inversion Hr.
  - destruct (body r0 st) as [[[] st1]|e] eqn:Hb; simpl; try discriminate.
    intros Hrest. destruct (IH _ Hrest) as (Hlen & Hseen & Hinert).
    apply loop_body_iteration, iteration_next_inv in Hb.
    assert (forall r, r ∈ r0 :: l -> body r0 st' = Ok (Next, st') ->
                      body r st' = Ok (Next, st')) as Hall.
    { intros r [->|Hr]%elem_of_cons H0; [assumption|now apply Hinert]. }
    destruct Hb as [[-> Hwhy]|(u & h & v & Hu & -> & Hlt)].
    + split; [assumption|]. split; [assumption|].
      intros r Hr. apply (Hall r Hr).
      destruct Hwhy as [Hskip|[(h & Hc & Hcomp)|(h & Hc & Hkw & Hlt)]].
      * apply loop_body_iteration, skipped_url.
        intros u Hu.
        destruct (Hskip u Hu) as [->|Hin]; [now left|right; now apply Hseen].
      * now apply loop_body_no_company with h.
      * apply loop_body_rejected with h; [assumption|now right|].
        now destruct Hlen as [->|Hlen].
    + split; [right; now destruct Hlen as [->|Hlen]|].
      split; [intros u' Hu'; apply Hseen; simpl; set_solver|].
      intros r Hr. apply (Hall r Hr).
      apply loop_body_seen with u; [assumption|]. apply Hseen. simpl. set_solver.
Qed.

Lemma scan_settled l st :
  (forall r, r ∈ l -> body r st = Ok (Next, st)) -> run l st = Ok st.
Proof.
  induction l as [|r l IH]; intros H; simpl; [reflexivity|].
  rewrite (H r) by left. simpl. apply IH. intros r' Hr'. apply H. now right.
Qed.

Lemma scan_repeated l l2 st :
  (forall r, r ∈ l2 -> r ∈ l) -> run (l ++ l2) st = run l st.
Proof.
  intros Hsub. rewrite scan_app_flow, scan_of_flow.
  destruct (run_flow l st) as [[[] st1]|e] eqn:Hf; try reflexivity.
  apply scan_flow_settled in Hf as (_ & _ & Hinert).
  apply scan_settled. intros r Hr. apply Hinert, Hsub, Hr.
Qed.

End Repeated.

(** Records that come again behind the list they are in change nothing:
    the filter gives on a list followed by records of that list what it
    gives on the list, so what several queries return twice is handled
    once, whatever the cap. *)
Theorem repeated_records_change_nothing
    (company : string) (job_role : option string) (max_results : nat)
    (l l2 : list repo) :
  (forall r, r ∈ l2 -> r ∈ l) ->
  relevance_filter company job_role max_results (l ++ l2)
  = relevance_filter company job_role max_results l.
Proof.
  intros Hsub. rewrite !relevance_filter_phases, !accepted_scan.
  now rewrite scan_repeated.
Qed.

Lemma repeated_records_change_nothing_witness :
  (forall r, r ∈ sample_results -> r ∈ sample_results)
  /\ relevance_filter "Acme" (Some "backend") 8 (sample_results ++ sample_results)
     = relevance_filter "Acme" (Some "backend") 8 sample_results.
Proof.
  split; [trivial|].
  apply (repeated_records_change_nothing "Acme" (Some "backend") 8
           sample_results sample_results).
  trivial.
Defined.

(** ** The fallback table, further *)

Lemma first_match_none (test : string -> bool) (t : table) :
  (forall key found, (key, found) ∈ t -> test key = false) ->
  first_match test t = [].
Proof.
  induction t as [|[key found] t IH]; intros H; simpl; [reflexivity|].
  rewrite (H key found) by left. apply IH. intros k f Hk. apply (H k f). now right.
Qed.

Lemma first_match_app (test : string -> bool) (t1 t2 : table) :
  (forall key found, (key, found) ∈ t1 -> test key = false) ->
  first_match test (t1 ++ t2) = first_match test t2.
Proof.
  induction t1 as [|[key found] t1 IH]; intros H; simpl; [reflexivity|].
  rewrite (H key found) by left. apply IH. intros k f Hk. apply (H k f). now right.
Qed.

Lemma first_match_cases (test : string -> bool) (t : table) :
  first_match test t = []
  \/ exists key, (key, first_match test t) ∈ t /\ test key = true.
Proof.
  induction t as [|[key found] t IH]; simpl; [now left|].
  destruct (test key) eqn:E.
  - right. exists key. split; [left|assumption].
  - destruct IH as [IH|(k & Hk & Ht)]; [now left|].
    right. exists k. split; [now right|assumption].
Qed.

Lemma company_table_sizes key found :
  (key, found) ∈ company_table -> length found <= 3.
Proof.
  unfold company_table. intros H.
  repeat (apply elem_of_cons in H as [[= -> ->]|H]; [simpl; lia|]).
  inversion H.
Qed.

Lemma role_table_sizes key found :
  (key, found) ∈ role_table -> length found = 2.
Proof.
  unfold role_table. intros H.
  repeat (apply elem_of_cons in H as [[= -> ->]|H]; [reflexivity|]).
  inversion H.
Qed.

Lemma fallback_no_role (company : string) :
  get_improved_fallback_resources company None
  = first_match (company_key_matches company) company_table.
Proof.
  unfold get_improved_fallback_resources.
  now destruct (first_match _ company_table).
Qed.

(** A company that no key of the table matches, in either direction of
    containment, gets no fallback resources, whatever the job role. *)
Theorem fallback_unmapped_company (company : string) (job_role : option string) :
  (forall key found, (key, found) ∈ company_table ->
     (key isin lower company) = false /\ (lower company isin key) = false) ->
  get_improved_fallback_resources company job_role = [].
Proof.
  intros H. unfold get_improved_fallback_resources.
  rewrite first_match_none; [now destruct job_role|].
  intros key found Hk. destruct (H key found Hk) as [-> ->]. reflexivity.
Qed.

Lemma fallback_unmapped_company_witness :
  (forall key found, (key, found) ∈ company_table ->
     (key isin lower "UnknownCorp123") = false
     /\ (lower "UnknownCorp123" isin key) = false)
  /\ get_improved_fallback_resources "UnknownCorp123" (Some "frontend") = [].
Proof.
  assert (forall key found, (key, found) ∈ company_table ->
            (key isin lower "UnknownCorp123") = false
            /\ (lower "UnknownCorp123" isin key) = false) as H.
  { unfold company_table. intros key found H.
    repeat (apply elem_of_cons in H as [[= -> ->]|H];
            [split; vm_compute; reflexivity|]).
    inversion H. }
  split; [exact H|].
  apply (fallback_unmapped_company "UnknownCorp123" (Some "frontend") H).
Defined.

(** The first key of the table, in the order it is written, that is in the
    lowered company name or holds it, decides the company entries: a key
    further on is not looked at, even when it matches too. *)
Theorem fallback_first_matching_key
    (company key : string) (found : list resource) (t1 t2 : table) :
  company_table = t1 ++ (key, found) :: t2 ->
  (forall k f, (k, f) ∈ t1 -> company_key_matches company k = false) ->
  company_key_matches company key = true ->
  get_improved_fallback_resources company None = found.
Proof.
  intros Ht H1 Hkey. rewrite fallback_no_role, Ht, first_match_app by assumption.
  simpl. now rewrite Hkey.
Qed.

Lemma fallback_first_matching_key_witness :
  company_key_matches "Google and Amazon" "amazon" = true
  /\ company_key_matches "Google and Amazon" "google" = true
  /\ get_improved_fallback_resources "Google and Amazon" None = amazon_entries.
Proof.
  split; [reflexivity|]. split; [reflexivity|].
  apply (fallback_first_matching_key "Google and Amazon" "amazon"
           amazon_entries [] (drop 1 company_table));
    [reflexivity| |reflexivity].
  intros k f H. inversion H.
Defined.

Lemma fallback_decomposition (company : string) (job_role : option string) :
  exists pre,
    get_improved_fallback_resources company job_role
    = pre ++ get_improved_fallback_resources company None
    /\ (get_improved_fallback_resources company None = [] -> pre = [])
    /\ (pre = [] \/ exists role_key, (role_key, pre) ∈ role_table)
    /\ length (get_improved_fallback_resources company job_role) <= 5.
Proof.
  rewrite fallback_no_role. unfold get_improved_fallback_resources.
  fold (company_key_matches company).
  assert (length (first_match (company_key_matches company) company_table) <= 3)
    as Hlen.
  { destruct (first_match_cases (company_key_matches company) company_table)
      as [->|(k & Hk & _)]; [simpl; lia|now apply company_table_sizes in Hk]. }
  destruct (first_match (company_key_matches company) company_table)
    as [|c cs] eqn:Hcs.
  { exists []. destruct job_role; simpl; repeat split; auto; lia. }
  destruct job_role as [job_role|];
    [|exists []; simpl in *; repeat split; auto; try discriminate; lia].
  destruct (truthy job_role);
    [|exists []; simpl in *; repeat split; auto; try discriminate; lia].
  match goal with |- context [first_match ?test role_table] =>
    destruct (first_match_cases test role_table) as [->|(k & Hk & _)];
    [exists []; simpl in *; repeat split; auto; try discriminate; lia|];
    destruct (first_match test role_table) as [|x xs] eqn:Hrs
  end.
  { exists []. simpl in *. repeat split; auto; try discriminate; lia. }
  exists (x :: xs). split; [reflexivity|]. split; [discriminate|].
  split; [right; now exists k|].
  apply role_table_sizes in Hk. rewrite length_app. simpl in *. lia.
Qed.

(** What the fallback returns always ends with the company entries, has at
    most five entries, and begins with role entries, the two of one key of
    the role table, only when the company is matched: a job role alone
    never yields a resource. *)
Theorem fallback_shape (company : string) (job_role : option string) :
  exists pre,
    get_improved_fallback_resources company job_role
    = pre ++ get_improved_fallback_resources company None
    /\ (get_improved_fallback_resources company None = [] -> pre = [])
    /\ (pre = [] \/ exists role_key, (role_key, pre) ∈ role_table)
    /\ length (get_improved_fallback_resources company job_role) <= 5.
Proof. apply fallback_decomposition. Qed.

Lemma split_software_engineer :
  split "software engineer" = ["software"; "engineer"].
Proof. reflexivity. Qed.

(** For a matched company, every job role whose lowered text holds the
    word software or the word engineer gets the software engineer entries
    in front: the first key of the role table matches by any one of its
    words, so the keys behind it, machine learning for one, are not
    reached. *)
Theorem fallback_role_matches_by_word (company job_role : string) :
  get_improved_fallback_resources company None <> [] ->
  ("software" isin lower job_role) = true
    \/ ("engineer" isin lower job_role) = true ->
  get_improved_fallback_resources company (Some job_role)
  = software_engineer_entries ++ get_improved_fallback_resources company None.
Proof.
  rewrite fallback_no_role. intros Hcs Hword.
  unfold get_improved_fallback_resources. fold (company_key_matches company).
  destruct (first_match (company_key_matches company) company_table)
    as [|c cs]; [congruence|].
  assert (truthy job_role = true) as ->.
  { destruct job_role; [|reflexivity].
    destruct Hword as [H|H]; discriminate. }
  unfold role_table. cbn [first_match]. rewrite split_software_engineer.
  cbn [any existsb].
  destruct Hword as [-> | ->]; rewrite ?orb_true_r; reflexivity.
Qed.

Lemma fallback_role_matches_by_word_witness :
  get_improved_fallback_resources "Google" None <> []
  /\ ("engineer" isin lower "Machine Learning Engineer") = true
  /\ get_improved_fallback_resources "Google" (Some "Machine Learning Engineer")
     = software_engineer_entries ++ get_improved_fallback_resources "Google" None.
Proof.
  split; [vm_compute; discriminate|]. split; [reflexivity|].
  apply (fallback_role_matches_by_word "Google" "Machine Learning Engineer");
    [vm_compute; discriminate|right; reflexivity].
Defined.

(** ** The company overview, further *)

(** When the model confirms the company and gives an overview, the
    overview is returned behind the qualifying sentence exactly when its
    lowered text holds the phrase insufficient information, and as it is
    otherwise: the three phrases with a capital letter decide nothing. *)
Theorem overview_qualified_by_last_phrase_only
    (generate_content : string -> response) (company : string)
    (role : option string) (validation overview : string) :
  generate_content (validation_prompt company) = Text validation ->
  ("yes" isin lower validation) = true ->
  generate_content (overview_prompt company role) = Text overview ->
  generate_company_overview generate_content company role
  = if "insufficient information" isin lower overview
    then "Based on available information about '" +:+ company +:+ "':"
         +:+ newline +:+ newline +:+ overview
    else overview.
Proof.
  intros Hv Hyes Ho. unfold generate_company_overview.
  rewrite Hv, Hyes. simpl. rewrite Ho. apply qualify_decided_by_last_phrase.
Qed.

Lemma overview_qualified_by_last_phrase_only_witness :
  unsure_model (validation_prompt "Acme") = Text "Yes."
  /\ generate_company_overview unsure_model "Acme" (Some "Backend")
     = "I cannot provide details about this company.".
Proof.
  split; [vm_compute; reflexivity|].
  apply (overview_qualified_by_last_phrase_only unsure_model "Acme" (Some "Backend")
           "Yes." "I cannot provide details about this company.");
    vm_compute; reflexivity.
Defined.

(** ** The video search *)

Lemma add_video_app (acc : list video) (entry : gmap string value) :
  add_video acc entry = acc ++ add_video [] entry.
Proof.
  unfold add_video.
  destruct (entry !! "title") as [[|t]|], (entry !! "id") as [[|i]|];
    try (now rewrite app_nil_r).
  destruct (truthy t && truthy i); [reflexivity|now rewrite app_nil_r].
Qed.

Lemma foldl_add_video (acc : list video) (entries : list (gmap string value)) :
  foldl add_video acc entries = acc ++ foldl add_video [] entries.
Proof.
  revert acc. induction entries as [|entry entries IH]; intros acc; simpl.
  - now rewrite app_nil_r.
  - rewrite IH, (IH (add_video [] entry)), (add_video_app acc).
    now rewrite <- app_assoc.
Qed.

(** The video an entry gives, if it gives one. *)
Lemma add_video_cases (entry : gmap string value) :
  (add_video [] entry = []
   /\ ~ exists t i, entry !! "title" = Some (Str t) /\ t <> ""
                    /\ entry !! "id" = Some (Str i) /\ i <> "")
  \/ exists t i,
       entry !! "title" = Some (Str t) /\ t <> ""
       /\ entry !! "id" = Some (Str i) /\ i <> ""
       /\ add_video [] entry
          = [ Video t ("https://www.youtube.com/watch?v=" +:+ i)
                ("https://img.youtube.com/vi/" +:+ i +:+ "/mqdefault.jpg") ].
Proof.
  unfold add_video.
  destruct (entry !! "title") as [[|t]|];
    try (left; split; [reflexivity|intros (? & ? & ? & _); congruence]).
  destruct (entry !! "id") as [[|i]|];
    try (left; split; [reflexivity|intros (? & ? & _ & _ & ? & _); congruence]).
  destruct t as [|c t]; simpl;
    [left; split; [reflexivity|intros (? & ? & [= <-] & ? & _); congruence]|].
  destruct i as [|d i]; simpl;
    [left; split; [reflexivity|intros (? & ? & _ & _ & [= <-] & ?); congruence]|].
  right. exists (String c t), (String d i). repeat split; discriminate.
Qed.

Lemma videos_of_entries (entries : list (gmap string value)) (v : video) :
  v ∈ foldl add_video [] entries
  <-> exists entry video_id,
        entry ∈ entries
        /\ entry !! "title" = Some (Str (title v)) /\ title v <> ""
        /\ entry !! "id" = Some (Str video_id) /\ video_id <> ""
        /\ video_url v = "https://www.youtube.com/watch?v=" +:+ video_id
        /\ thumbnail_url v
           = "https://img.youtube.com/vi/" +:+ video_id +:+ "/mqdefault.jpg".
Proof.
  induction entries as [|entry entries IH]; cbn [foldl].
  - split; [inversion 1|]. intros (? & ? & H & _). inversion H.
  - rewrite foldl_add_video, elem_of_app, IH. split.
    + intros [H|(e & i & He & Hrest)].
      * destruct (add_video_cases entry)
          as [[E _]|(t & i & Ht & Htne & Hi & Hine & E)]; rewrite E in H;
          [inversion H|].
        apply list_elem_of_singleton in H as ->. simpl.
        exists entry, i. split; [left|]. now repeat split.
      * exists e, i. split; [now right|assumption].
    + intros (e & i & [->|He]%elem_of_cons & Ht & Htne & Hi & Hine & Hu & Hth).
      * left. destruct (add_video_cases entry)
          as [[_ Hno]|(t' & i' & Ht' & _ & Hi' & _ & ->)].
        -- destruct Hno. exists (title v), i. now repeat split.
        -- apply list_elem_of_singleton. destruct v as [vt vu vth]. simpl in *.
           congruence.
      * right. exists e, i. split; [assumption|]. now repeat split.
Qed.

Lemma videos_count (entries : list (gmap string value)) :
  length (foldl add_video [] entries) <= length entries
  /\ ((forall entry, entry ∈ entries ->
         exists t i, entry !! "title" = Some (Str t) /\ t <> ""
                     /\ entry !! "id" = Some (Str i) /\ i <> "") ->
      length (foldl add_video [] entries) = length entries).
Proof.
  induction entries as [|entry entries [IH1 IH2]]; cbn [foldl length];
    [split; [lia|reflexivity]|].
  rewrite foldl_add_video, length_app.
  destruct (add_video_cases entry) as [[-> Hno]|(t & i & _ & _ & _ & _ & ->)]; simpl.
  - split; [lia|]. intros H. destruct Hno. apply H. left.
  - split; [lia|]. intros H. rewrite IH2; [reflexivity|].
    intros e He. apply H. now right.
Qed.

(** The videos returned are those of the entries that have a title and an
    id, both not empty, with the two URLs made from the id: a returned
    video comes from such an entry of the answer to the query, and every
    such entry gives its video. The function applies no cap of its own: the
    count is that of the entries with a title and an id, whatever
    [max_results] is. When the search raises, the list is empty and the
    message is shown. *)
Theorem videos_from_titled_entries
    (extract_info : string -> ydl_outcome) (company topic : string)
    (max_results : nat) :
  (forall entries,
      extract_info ("ytsearch" +:+ pretty max_results +:+ ":" +:+ company
                    +:+ " " +:+ topic) = YdlInfo (Some entries) ->
      (forall v,
          v ∈ (search_youtube_videos extract_info company topic max_results).1
          <-> exists entry video_id,
                entry ∈ entries
                /\ entry !! "title" = Some (Str (title v)) /\ title v <> ""
                /\ entry !! "id" = Some (Str video_id) /\ video_id <> ""
                /\ video_url v = "https://www.youtube.com/watch?v=" +:+ video_id
                /\ thumbnail_url v
                   = "https://img.youtube.com/vi/" +:+ video_id +:+ "/mqdefault.jpg")
      /\ length (search_youtube_videos extract_info company topic max_results).1
         <= length entries
      /\ ((forall entry, entry ∈ entries ->
             exists t i, entry !! "title" = Some (Str t) /\ t <> ""
                         /\ entry !! "id" = Some (Str i) /\ i <> "") ->
          length (search_youtube_videos extract_info company topic max_results).1
          = length entries))
  /\ (forall e,
        extract_info ("ytsearch" +:+ pretty max_results +:+ ":" +:+ company
                      +:+ " " +:+ topic) = YdlRaised e ->
        search_youtube_videos extract_info company topic max_results
        = ([], Some ("Error searching YouTube videos: " +:+ e))).
Proof.
  unfold search_youtube_videos. split.
  - intros entries ->. simpl. split; [apply videos_of_entries|apply videos_count].
  - now intros e ->.
Qed.

Lemma videos_from_titled_entries_witness :
  (search_youtube_videos three_entries "Acme" "interview questions" 1).1
  = [ Video "Acme backend interview" "https://www.youtube.com/watch?v=abc"
        "https://img.youtube.com/vi/abc/mqdefault.jpg";
      Video "Cooking pasta" "https://www.youtube.com/watch?v=ghi"
        "https://img.youtube.com/vi/ghi/mqdefault.jpg" ]
  /\ length (search_youtube_videos three_entries "Acme" "interview questions" 1).1
     <= 3.
Proof.
  split; [vm_compute; reflexivity|].
  apply (proj1 (videos_from_titled_entries three_entries "Acme" "interview questions" 1)
           [ titled_entry "Acme backend interview" "abc";
             titled_entry "" "def";
             titled_entry "Cooking pasta" "ghi" ]).
  reflexivity.
Defined.

(** ** The videos for the job role *)

Lemma foldl_keep {A : Type} (p : A -> bool) (acc l : list A) :
  foldl (fun kept x => if p x then kept ++ [x] else kept) acc l
  = acc ++ List.filter p l.
Proof.
  revert acc. induction l as [|x l IH]; intros acc; simpl; [now rewrite app_nil_r|].
  rewrite IH. destruct (p x); [now rewrite <- app_assoc|reflexivity].
Qed.

Lemma relevant_job_videos_filter (company_name job_role : string)
    (job_videos : list video) :
  relevant_job_videos company_name job_role job_videos
  = List.filter
      (fun v =>
         (lower company_name isin lower (title v))
         && any (fun term => term isin lower (title v)) (split (lower job_role)))
      job_videos.
Proof.
  unfold relevant_job_videos.
  exact (foldl_keep
           (fun v =>
              (lower company_name isin lower (title v))
              && any (fun term => term isin lower (title v)) (split (lower job_role)))
           [] job_videos).
Qed.

Lemma filter_sublist {A : Type} (p : A -> bool) (l : list A) :
  List.filter p l `sublist_of` l.
Proof.
  induction l as [|x l IH]; simpl; [constructor|].
  destruct (p x); now constructor.
Qed.

Lemma all_space_lower s : all_space (lower s) = all_space s.
Proof.
  induction s as [|c s IH]; simpl; [reflexivity|].
  now rewrite isspace_lower_char, IH.
Qed.

Lemma split_all_space s : all_space s = true -> split s = [].
Proof.
  unfold split. induction s as [|c s IH]; simpl; [reflexivity|].
  intros [-> Hs]%andb_prop. simpl. now apply IH.
Qed.

(** The videos shown for the job role are those of the search, in their
    order, whose lowered title holds the lowered company name and a word of
    the lowered job role. For a job role of whitespace only there is no
    word, so no video is ever shown, while the block is still entered when
    that text is not empty. *)
Theorem job_videos_need_company_and_role_word
    (extract_info : string -> ydl_outcome) (company_name job_role : string)
    (job_videos : list video) :
  (forall v,
      v ∈ relevant_job_videos company_name job_role job_videos
      <-> v ∈ job_videos
          /\ (lower company_name isin lower (title v)) = true
          /\ exists term, term ∈ split (lower job_role)
               /\ (term isin lower (title v)) = true)
  /\ relevant_job_videos company_name job_role job_videos `sublist_of` job_videos
  /\ (all_space job_role = true ->
      relevant_job_videos company_name job_role job_videos = []
      /\ (job_role <> "" ->
          job_role_videos extract_info company_name job_role = Some [])).
Proof.
  split; [|split].
  - intros v. rewrite relevant_job_videos_filter, list_elem_of_In, filter_In,
      <- list_elem_of_In, andb_true_iff, any_true. tauto.
  - rewrite relevant_job_videos_filter. apply filter_sublist.
  - intros Hws.
    assert (forall vs, relevant_job_videos company_name job_role vs = []) as Hnone.
    { intros vs. rewrite relevant_job_videos_filter.
      rewrite split_all_space by now rewrite all_space_lower.
      induction vs as [|v vs IH]; simpl; [reflexivity|].
      now rewrite andb_false_r. }
    split; [apply Hnone|].
    intros Hne. unfold job_role_videos.
    rewrite (proj2 (truthy_nonempty job_role) Hne). now rewrite Hnone.
Qed.

Lemma job_videos_need_company_and_role_word_witness :
  all_space blank_role = true
  /\ blank_role <> ""
  /\ job_role_videos three_entries "Acme" blank_role = Some []
  /\ job_role_videos three_entries "Acme" "Backend Developer"
     = Some [ Video "Acme backend interview" "https://www.youtube.com/watch?v=abc"
                "https://img.youtube.com/vi/abc/mqdefault.jpg" ].
Proof.
  split; [reflexivity|]. split; [discriminate|]. split; [|vm_compute; reflexivity].
  apply (proj2 (proj2 (job_videos_need_company_and_role_word three_entries "Acme"
                         blank_role []))); [reflexivity|discriminate].
Defined.

(** ** The ASCII check *)

Lemma english_lower_char c : (ord (lower_char c) <? 128) = (ord c <? 128).
Proof. destruct c as [[] [] [] [] [] [] [] []]; vm_compute; reflexivity. Qed.

(** A text is English, for [is_english], exactly when its lowered form is,
    and a text put together from two parts exactly when both parts are. *)
Theorem is_english_lower_and_append (a b : string) :
  is_english (lower a) = is_english a
  /\ is_english (a +:+ b) = is_english a && is_english b.
Proof.
  split.
  - induction a as [|c a IH]; simpl; [reflexivity|].
    now rewrite english_lower_char, IH.
  - induction a as [|c a IH]; simpl; [reflexivity|].
    now rewrite IH, andb_assoc.
Qed.

(** ** The resources shown *)

Lemma Ok_inj {A : Type} (a b : A) : Ok a = Ok b -> a = b.
Proof. now intros [= ->]. Qed.

Lemma relevance_filter_length (company : string) (job_role : option string)
    (max_results : nat) (l : list repo) (res : list resource) :
  relevance_filter company job_role max_results l = Ok res ->
  length res <= max_results.
Proof.
  rewrite relevance_filter_phases.
  destruct ((accepted company job_role max_results l).1); simpl; [|discriminate].
  intros [= <-]. rewrite length_take. lia.
Qed.

Lemma nothing_fetched (search : string -> option (list repo))
    (company : string) (job_role : option string) (max_results : nat) :
  (forall query, query ∈ (build_queries company job_role).1 ->
     search query = None \/ search query = Some []) ->
  get_github_resources search company job_role max_results = Ok [].
Proof.
  intros H. rewrite get_github_resources_filter, fetch_nothing by assumption.
  reflexivity.
Qed.

(** When no request brings a record, because it fails or answers with no
    items, [get_github_resources] returns the empty list without raising,
    and the resources shown are those of the fallback table. *)
Theorem fallback_shown_when_nothing_fetched
    (search : string -> option (list repo)) (company_name job_role : string) :
  (forall query, query ∈ (build_queries company_name (Some job_role)).1 ->
     search query = None \/ search query = Some []) ->
  get_github_resources search company_name (Some job_role) 8 = Ok []
  /\ main_resources search company_name job_role
     = Ok (get_improved_fallback_resources company_name (Some job_role)).
Proof.
  intros H. unfold main_resources.
  rewrite (nothing_fetched search company_name (Some job_role) 8 H).
  split; reflexivity.
Qed.

Lemma fallback_shown_when_nothing_fetched_witness :
  (forall query, query ∈ (build_queries "Netflix" (Some "")).1 ->
     (fun _ : string => @None (list repo)) query = None
     \/ (fun _ : string => @None (list repo)) query = Some [])
  /\ main_resources (fun _ => None) "Netflix" ""
     = Ok (get_improved_fallback_resources "Netflix" (Some "")).
Proof.
  split; [intros; now left|].
  apply (fallback_shown_when_nothing_fetched (fun _ => None) "Netflix" "").
  intros; now left.
Defined.

(** The resources shown are never more than eight, and they are either
    the results of the search, when there is one at least, or those of the
    fallback table, when the search gives none: the two are never mixed. *)
Theorem shown_resources_bounded
    (search : string -> option (list repo)) (company_name job_role : string)
    (res : list resource) :
  main_resources search company_name job_role = Ok res ->
  length res <= 8
  /\ ((get_github_resources search company_name (Some job_role) 8 = Ok res
       /\ res <> [])
      \/ (get_github_resources search company_name (Some job_role) 8 = Ok []
          /\ res = get_improved_fallback_resources company_name (Some job_role))).
Proof.
  intros H. unfold main_resources in H.
  destruct (get_github_resources search company_name (Some job_role) 8)
    as [[|x xs]|e] eqn:Hg; [| |discriminate].
  - change (Ok (get_improved_fallback_resources company_name (Some job_role))
            = Ok res) in H.
    apply Ok_inj in H. subst res. split; [|now right].
    destruct (fallback_decomposition company_name (Some job_role))
      as (pre & _ & _ & _ & Hlen). lia.
  - change (Ok (x :: xs) = Ok res) in H. apply Ok_inj in H. subst res.
    split; [|left; split; [reflexivity|discriminate]].
    rewrite get_github_resources_filter in Hg.
    now apply relevance_filter_length in Hg.
Qed.

Lemma shown_resources_bounded_witness :
  main_resources (fun _ => Some sample_results) "Acme" ""
    = Ok [Resource (Str "b/acme-prep") "https://github.com/b/acme-prep"]
  /\ length [Resource (Str "b/acme-prep") "https://github.com/b/acme-prep"] <= 8.
Proof.
  split; [vm_compute; reflexivity|].
  apply (shown_resources_bounded (fun _ => Some sample_results) "Acme" ""
           [Resource (Str "b/acme-prep") "https://github.com/b/acme-prep"]).
  vm_compute; reflexivity.
Defined.

(** ** Instances of the properties above *)

Lemma queries_mention_company_witness :
  length (build_queries "Acme" (Some " Data Scientist ")).1 = 9
  /\ (forall query,
        query ∈ (build_queries "Acme" (Some " Data Scientist ")).1 ->
        ("Acme" isin query) = true).
Proof.
  split; [reflexivity|].
  apply (proj1 (proj2 (queries_mention_company "Acme" (Some " Data Scientist ")))).
Defined.

Lemma filter_raises_only_on_malformed_records_witness :
  (forall r, r ∈ [bare_record] ->
     r !! "name" <> Some PyNone /\ r !! "full_name" <> None)
  /\ exists res, relevance_filter "Acme" None 8 [bare_record] = Ok res.
Proof.
  assert (forall r, r ∈ [bare_record] ->
            r !! "name" <> Some PyNone /\ r !! "full_name" <> None) as H.
  { intros r ->%list_elem_of_singleton. split; vm_compute; discriminate. }
  split; [exact H|].
  apply (proj1 (filter_raises_only_on_malformed_records "Acme" None 8 [bare_record]) H).
Defined.
